(** * The actor runtime of [src/actors]: a shallow embedding and its properties

    The embedding follows the three modules of the runtime:
    - [message.py]: the envelope [ActorMessage] and its [MessageType] tag;
    - [base.py]: the [Actor] object, its dispatch loop and [tell]/[ask];
    - [system.py]: the registry [ActorSystem] with [spawn], [send], [stop]
      and [broadcast];
    and the two concrete handlers of [actors/command_actor.py] and
    [actors/web_search_actor.py].

    [base.py] also holds an older copy of [ActorSystem]; the system that
    the package exports, the tests build and the actors are attached to is
    the one of [system.py], and it is the one embedded here.

    Actor objects are mutable and shared between the registry, the running
    tasks and the callers, so they live in a store (a finite map from
    references to object states) and the registry maps identities to
    references.  asyncio is cooperative: a coroutine runs without interruption
    between two suspension points, so every function below is one such
    uninterrupted stretch, and the world is threaded through it. *)

From stdpp Require Import gmap strings list fin_maps relations.
From Stdlib Require Import ZArith.

Set Warnings "-register-all".

(** ** Python values and exceptions *)

Module Py.

(** The exception classes the runtime distinguishes.  [_run] has one clause
    for [asyncio.TimeoutError], one for [Exception]; whatever is only a
    [BaseException] (a cancellation, for instance) escapes both. *)
Inductive ExcType :=
  | TimeoutError
  | RuntimeError
  | RecursionError
  | KeyError
  | AttributeError
  | TypeError
  | OtherException
  | BaseExceptionOnly.

(** An exception object: its class and [str(e)]. *)
Record PyExc := mkExc { exc_type : ExcType; exc_str : string }.

Definition is_TimeoutError (e : PyExc) : bool :=
  match exc_type e with TimeoutError => true | _ => false end.

(** [isinstance(e, Exception)] *)
Definition is_Exception (e : PyExc) : bool :=
  match exc_type e with BaseExceptionOnly => false | _ => true end.

(** A call either returns or raises. *)
Inductive Result (A : Type) :=
  | Ok (a : A)
  | Err (e : PyExc).
Arguments Ok {A} a.
Arguments Err {A} e.

Definition bind {A B} (m : Result A) (k : A → Result B) : Result B :=
  match m with
  | Ok a => k a
  | Err e => Err e
  end.

(** [for x in xs: s = body(s, x)], stopping at the first exception. *)
Fixpoint foldM {S X} (body : S → X → Result S) (s : S) (xs : list X)
  : Result S :=
  match xs with
  | [] => Ok s
  | x :: xs' => bind (body s x) (λ s', foldM body s' xs')
  end.

(** Truth value of a string: the empty string is false. *)
Definition truthy (s : string) : bool :=
  match s with EmptyString => false | _ => true end.

(** Truth value of an [Optional[str]]. *)
Definition truthy_opt (o : option string) : bool :=
  match o with Some s => truthy s | None => false end.

End Py.
Export Py.

Notation "'let*' x := m 'in' k" := (bind m (λ x, k))
  (at level 10, x name, m at level 100, k at level 200, only parsing).

(** ** message.py *)

Module Message.

Inductive MessageType :=
  | DEFAULT
  | REQUEST
  | RESPONSE
  | ERROR
  | SPAWN_SUBAGENT
  | EXECUTE_COMMAND
  | WEB_SEARCH
  | DELEGATE_TASK.

(** [MessageType.X.value] *)
Definition value (m : MessageType) : string :=
  match m with
  | DEFAULT => "default"
  | REQUEST => "request"
  | RESPONSE => "response"
  | ERROR => "error"
  | SPAWN_SUBAGENT => "spawn_subagent"
  | EXECUTE_COMMAND => "execute_command"
  | WEB_SEARCH => "web_search"
  | DELEGATE_TASK => "delegate_task"
  end.

Global Instance MessageType_eq_dec : EqDecision MessageType.
Proof. solve_decision. Defined.

(** What the attribute [message_type] holds at run time.  The dataclass
    annotates it with [MessageType] but checks nothing, and [base.py] and
    [actor_agent.py] store and compare plain strings there. *)
Inductive Kind :=
  | KEnum (m : MessageType)
  | KStr (s : string).

Global Instance Kind_eq_dec : EqDecision Kind.
Proof. solve_decision. Defined.

(** Python's [==] on these values.  [MessageType] derives from [Enum] only
    (not from [str]): two members are equal when they are the same member,
    two strings when they have the same characters, and a string never
    equals a member. *)
Definition py_eq (a b : Kind) : bool :=
  match a, b with
  | KEnum m, KEnum n => bool_decide (m = n)
  | KStr s, KStr t => bool_decide (s = t)
  | _, _ => false
  end.

(** The values carried as payloads, results and log fields ([Any] in the
    source): the scalars, lists, dicts in insertion order, and the three
    dataclasses of [message.py].  The float [timeout] is only stored and
    copied, never computed with; it is kept as a number of seconds. *)
Inductive PyVal :=
  | VNone
  | VBool (b : bool)
  | VInt (z : Z)
  | VStr (s : string)
  | VMessageType (m : MessageType)
  | VList (l : list PyVal)
  | VDict (d : list (string * PyVal))
  | VExecuteCommand (command : string) (timeout : Z)
  | VWebSearchQuery (query : string) (max_results : Z)
  | VCommandResult (success : bool) (data : PyVal) (error : option string).

Definition opt_str (o : option string) : PyVal :=
  match o with Some s => VStr s | None => VNone end.

Definition kind_val (k : Kind) : PyVal :=
  match k with KEnum m => VMessageType m | KStr s => VStr s end.

(** [ExecuteCommand(command)] with its default [timeout = 30.0] *)
Definition ExecuteCommand (command : string) : PyVal :=
  VExecuteCommand command 30.

(** [WebSearchQuery(query)] with its default [max_results = 5] *)
Definition WebSearchQuery (query : string) : PyVal :=
  VWebSearchQuery query 5.

(** The dataclass [ActorMessage].  [timestamp] is a [datetime]; it is kept
    as the clock reading it was built from. *)
Record ActorMessage := mkMessage {
  id : string;
  recipient : string;
  payload : PyVal;
  message_type : Kind;
  sender : option string;
  reply_to : option string;
  correlation_id : option string;
  timestamp : Z
}.

(** The arguments of a call [ActorMessage(...)]: each parameter is either
    passed ([Some]) or left out ([None]).  For the optional string fields
    the caller may pass [None] itself, hence the nested option. *)
Record InitArgs := mkArgs {
  arg_id : option string;
  arg_recipient : option string;
  arg_payload : option PyVal;
  arg_message_type : option Kind;
  arg_sender : option (option string);
  arg_reply_to : option (option string);
  arg_correlation_id : option (option string);
  arg_timestamp : option Z
}.

(** No argument passed. *)
Definition no_args : InitArgs :=
  mkArgs None None None None None None None None.


(** [self.message_type.value]: only an enum member has the attribute. *)
Definition kind_value (k : Kind) : Result string :=
  match k with
  | KEnum m => Ok (value m)
  | KStr _ =>
      Err (mkExc AttributeError "'str' object has no attribute 'value'")
  end.

Section to_dict.
(** [datetime.isoformat] *)
Variable isoformat : Z → string.

(** [ActorMessage.to_dict]: the entries are evaluated in the order they
    are written, the last one being [self.message_type.value]. *)
Definition to_dict (self : ActorMessage)
  : Result (list (string * PyVal)) :=
  let ts := isoformat (timestamp self) in
  let* v := kind_value (message_type self) in
  Ok [ ("id", VStr (id self));
       ("sender", opt_str (sender self));
       ("recipient", VStr (recipient self));
       ("payload", payload self);
       ("reply_to", opt_str (reply_to self));
       ("correlation_id", opt_str (correlation_id self));
       ("timestamp", VStr ts);
       ("message_type", VStr v) ].
End to_dict.

End Message.
Export Message.

(** ** base.py and system.py

    The two modules call each other ([Actor.stop] stops the children through
    the system, [ActorSystem.stop] stops the actor through [Actor.stop]), so
    they are embedded together. *)

Module Runtime.

Inductive ActorState :=
  | IDLE
  | RUNNING
  | STOPPED
  | ERROR.

(** A reference to an actor object. *)
Definition loc := nat.

(** The attributes of an [Actor] object.  [mailbox] is an unbounded
    [asyncio.Queue]: [put] appends, [get] takes the head.  [system] tells
    whether the attribute refers to the system ([ActorSystem] is a
    singleton) or is still [None]. *)
Record Actor := mkActor {
  actor_id : string;
  mailbox : list ActorMessage;
  system : bool;
  parent_id : option string;
  children : gset string;
  state : ActorState;
  _running : bool
}.

Definition set_mailbox (mb : list ActorMessage) (a : Actor) : Actor :=
  mkActor (actor_id a) mb (system a) (parent_id a) (children a) (state a)
          (_running a).
Definition set_system (s : bool) (a : Actor) : Actor :=
  mkActor (actor_id a) (mailbox a) s (parent_id a) (children a) (state a)
          (_running a).
Definition set_parent_id (p : option string) (a : Actor) : Actor :=
  mkActor (actor_id a) (mailbox a) (system a) p (children a) (state a)
          (_running a).
Definition set_children (c : gset string) (a : Actor) : Actor :=
  mkActor (actor_id a) (mailbox a) (system a) (parent_id a) c (state a)
          (_running a).
Definition set_state (s : ActorState) (a : Actor) : Actor :=
  mkActor (actor_id a) (mailbox a) (system a) (parent_id a) (children a) s
          (_running a).
Definition set_running (b : bool) (a : Actor) : Actor :=
  mkActor (actor_id a) (mailbox a) (system a) (parent_id a) (children a)
          (state a) b.

(** [Actor.__init__]: [actor_id or f"actor_{uuid.uuid4().hex[:8]}"], an
    empty mailbox, no system, no parent, no children, [IDLE].  [uuid] is
    the eight hexadecimal digits drawn. *)
Definition Actor_init (actor_id : option string) (uuid : string) : Actor :=
  {| actor_id := if truthy_opt actor_id then default "" actor_id
                 else "actor_" +:+ uuid;
     mailbox := [];
     system := false;
     parent_id := None;
     children := ∅;
     state := IDLE;
     _running := false |}.

Inductive LogLevel := info | warning | error.

(** One call of the structured logger: method, event, keyword fields. *)
Record LogEntry := mkLog {
  level : LogLevel;
  event : string;
  fields : list (string * PyVal)
}.

(** The world: the store of actor objects, the registry
    [ActorSystem.actors], the dispatch loops started with
    [asyncio.create_task] (one entry per call, the actor each one runs),
    and what the loggers have written.  The system's [_message_queue] is
    created and never used; it is left out. *)
Record World := mkWorld {
  heap : gmap loc Actor;
  actors : gmap string loc;
  tasks : list loc;
  log : list LogEntry
}.

Definition set_heap (h : gmap loc Actor) (w : World) : World :=
  mkWorld h (actors w) (tasks w) (log w).
Definition set_actors (r : gmap string loc) (w : World) : World :=
  mkWorld (heap w) r (tasks w) (log w).
Definition set_tasks (t : list loc) (w : World) : World :=
  mkWorld (heap w) (actors w) t (log w).

(** [self.logger.<lvl>(ev, **kw)] *)
Definition logger (lvl : LogLevel) (ev : string)
    (kw : list (string * PyVal)) (w : World) : World :=
  mkWorld (heap w) (actors w) (tasks w) (log w ++ [mkLog lvl ev kw]).

(** An attribute update of the object behind a reference.  The worlds the
    operations build never hold a reference without its object; a method
    called through such a reference is modelled as doing nothing, or as
    raising where the source needs a value from the object. *)
Definition update (r : loc) (f : Actor → Actor) (w : World) : World :=
  set_heap (alter f r (heap w)) w.

(** The empty world: [ActorSystem()] on first use. *)
Definition empty_world : World := mkWorld ∅ ∅ [] [].

(** A new object in the store. *)
Definition alloc (a : Actor) (w : World) : World * loc :=
  let r := size (heap w) in
  (set_heap (<[r := a]> (heap w)) w, r).

Definition attribute_error : PyExc :=
  mkExc AttributeError "object has no attribute".

(** *** ActorSystem *)

(** [ActorSystem.spawn].  The registry entry is assigned before the parent
    is looked up, so the parent can be the actor itself. *)
Definition spawn (w : World) (actor : loc) (parent_id : option string)
  : Result (World * string) :=
  match heap w !! actor with
  | None => Err attribute_error
  | Some a =>
      let aid := actor_id a in
      let w := set_actors (<[aid := actor]> (actors w)) w in
      let w := update actor (set_system true) w in
      let w := update actor (set_parent_id parent_id) w in
      let w :=
        if truthy_opt parent_id then
          match actors w !! default "" parent_id with
          | Some parent =>
              update parent (λ p, set_children ({[aid]} ∪ children p) p) w
          | None => w
          end
        else w in
      let w := set_tasks (tasks w ++ [actor]) w in
      let w := logger info "actor_spawned"
                 [("actor_id", VStr aid); ("parent_id", opt_str parent_id)]
                 w in
      Ok (w, aid)
  end.

(** [mailbox.put] on the unbounded queue *)
Definition put (message : ActorMessage) (a : Actor) : Actor :=
  set_mailbox (mailbox a ++ [message]) a.

(** [ActorSystem.send] *)
Definition send (w : World) (message : ActorMessage) : World :=
  match actors w !! recipient message with
  | Some actor => update actor (put message) w
  | None =>
      logger warning "actor_not_found"
        [("actor_id", VStr (recipient message))] w
  end.

(** [ActorSystem.get_actor] *)
Definition get_actor (w : World) (actor_id : string) : option loc :=
  actors w !! actor_id.

(** The copy [broadcast] builds for one target. *)
Definition msg_copy (message : ActorMessage) (actor_id : string)
  : ActorMessage :=
  {| id := id message;
     sender := sender message;
     recipient := actor_id;
     payload := payload message;
     message_type := message_type message;
     reply_to := reply_to message;
     correlation_id := correlation_id message;
     timestamp := timestamp message |}.

(** [ActorSystem.broadcast] *)
Fixpoint broadcast (w : World) (message : ActorMessage)
    (actor_ids : list string) : World :=
  match actor_ids with
  | [] => w
  | actor_id :: rest =>
      broadcast (send w (msg_copy message actor_id)) message rest
  end.

Definition recursion_error : PyExc :=
  mkExc RecursionError "maximum recursion depth exceeded".

(** What [ActorSystem.stop] does after [await actor.stop()] has returned:
    the identity leaves the child set of the actor's parent, if the actor
    names one and it is registered, and then the registry.
    [del self.actors[actor_id]] raises [KeyError] when the key is gone. *)
Definition unregister (actor_id : string) (actor : loc) (w : World)
  : Result World :=
  let* w :=
    match heap w !! actor with
    | None => Err attribute_error
    | Some a =>
        if truthy_opt (parent_id a) then
          match actors w !! default "" (parent_id a) with
          | Some parent =>
              Ok (update parent
                    (λ p, set_children (children p ∖ {[actor_id]}) p) w)
          | None => Ok w
          end
        else Ok w
    end in
  match actors w !! actor_id with
  | None => Err (mkExc KeyError actor_id)
  | Some _ =>
      let w := set_actors (delete actor_id (actors w)) w in
      Ok (logger info "actor_stopped" [("actor_id", VStr actor_id)] w)
  end.

Section stop.
(** [list(self.children)]: Python lists the elements of a set once each,
    in an order of its own; [listing] is that order. *)
Variable listing : gset string → list string.

(** The body of the loop of [Actor.stop], with the system's [stop] it calls
    left as a parameter. *)
Definition stop_child (system_stop : World → string → Result World)
    (self : loc) (w : World) (child_id : string) : Result World :=
  match heap w !! self with
  | Some a => if system a then system_stop w child_id else Ok w
  | None => Err attribute_error
  end.

(** [Actor.stop].  The loop runs over [list(self.children)], the children
    as they are when the loop starts. *)
Definition Actor_stop (system_stop : World → string → Result World)
    (w : World) (self : loc) : Result World :=
  let w := update self (set_running false) w in
  match heap w !! self with
  | None => Err attribute_error
  | Some a => foldM (stop_child system_stop self) w (listing (children a))
  end.

(** [ActorSystem.stop].  [depth] is the number of nested calls the
    interpreter still allows: a call that would go deeper raises
    [RecursionError]. *)
Fixpoint stop (depth : nat) (w : World) (actor_id : string)
  : Result World :=
  match depth with
  | 0 => Err recursion_error
  | S depth' =>
      match actors w !! actor_id with
      | None => Ok w
      | Some actor =>
          let* w := Actor_stop (stop depth') w actor in
          unregister actor_id actor w
      end
  end.
End stop.

(** *** Actor *)

(** [Actor.tell] *)
Definition tell (w : World) (self : loc) (message : ActorMessage)
  : World :=
  match heap w !! self with
  | None => w
  | Some a =>
      if system a then send w message
      else logger error "actor_no_system"
             [("actor_id", VStr (actor_id a))] w
  end.

(** An [asyncio.Future]: pending, or done with a result. *)
Definition Future := option ActorMessage.

(** The closure [reply_handler] of [ask]. *)
Definition reply_handler (future : Future) (reply_msg : ActorMessage)
  : Future :=
  match future with
  | None => Some reply_msg
  | Some _ => future
  end.

(** [asyncio.wait_for(future, timeout)] once the wait is over: the result
    of a future that is done, [TimeoutError] for one that is still pending
    when [timeout] seconds have passed. *)
Definition wait_for (future : Future) (timeout : Z) : Result ActorMessage :=
  match future with
  | Some result => Ok result
  | None => Err (mkExc TimeoutError "")
  end.

(** [Actor.ask].  While the caller is suspended in [wait_for] the other
    tasks run; [during] is what they do to the world in that time.  The
    future and [reply_handler] are local to the call: the function hands
    neither to the system nor to anyone else, so nothing that runs in
    between can reach them.  [reply_id] is computed and not used. *)
Definition ask (w : World) (self : loc) (message : ActorMessage)
    (timeout : Z) (during : World → World)
  : World * Result ActorMessage :=
  let future : Future := None in
  match heap w !! self with
  | None => (w, Err attribute_error)
  | Some a =>
      if system a then
        let w := send w message in
        let w := during w in
        match wait_for future timeout with
        | Ok result => (w, Ok result)
        | Err e =>
            (logger error "ask_timeout"
               [("actor_id", VStr (actor_id a));
                ("message_id", VStr (id message))] w,
             Err e)
        end
      else
        (logger error "actor_no_system"
           [("actor_id", VStr (actor_id a))] w,
         Err (mkExc RuntimeError "Actor has no system"))
  end.

(** [Actor.spawn_child] *)
Definition spawn_child (w : World) (self : loc) (actor : loc)
  : World * Result string :=
  match heap w !! self with
  | None => (w, Err attribute_error)
  | Some a =>
      if system a then
        match spawn w actor (Some (actor_id a)) with
        | Ok (w', i) => (w', Ok i)
        | Err e => (w, Err e)
        end
      else
        (logger error "actor_no_system"
           [("actor_id", VStr (actor_id a))] w,
         Err (mkExc RuntimeError "Actor has no system"))
  end.

(** The envelope [Actor._handle_error] builds for the parent.  [uuid] is
    the eight digits drawn for the id, [utcnow] the clock read for the
    timestamp.  Its [message_type] is the string ["child_error"]. *)
Definition error_message (a : Actor) (err : PyExc) (uuid : string)
    (utcnow : Z) : ActorMessage :=
  {| id := "error_" +:+ uuid;
     sender := Some (actor_id a);
     recipient := default "" (parent_id a);
     payload := VDict [("actor_id", VStr (actor_id a));
                       ("error", VStr (exc_str err))];
     message_type := KStr "child_error";
     reply_to := None;
     correlation_id := None;
     timestamp := utcnow |}.

(** [Actor._handle_error] *)
Definition _handle_error (w : World) (self : loc) (err : PyExc)
    (uuid : string) (utcnow : Z) : World :=
  match heap w !! self with
  | None => w
  | Some a =>
      let w := logger error "actor_error"
                 [("actor_id", VStr (actor_id a));
                  ("error", VStr (exc_str err))] w in
      let w := update self (set_state ERROR) w in
      if truthy_opt (parent_id a) && system a then
        send w (error_message a err uuid utcnow)
      else w
  end.

(** What a handler invocation leaves: the world, and the exception if it
    raised. *)
Definition Outcome : Type := World * option PyExc.

(** The abstract method [receive]. *)
Definition Handler : Type := World → loc → ActorMessage → Outcome.

Inductive LoopStatus :=
  | Looping          (* back at the head of the [while] *)
  | Exited           (* the loop condition was false *)
  | Crashed (e : PyExc).  (* an exception left [_run] *)

(** The first two statements of [Actor._run]. *)
Definition _run_enter (w : World) (self : loc) : World :=
  update self (set_state RUNNING) (update self (set_running true) w).

(** [self.mailbox.get()]: the head of the queue leaves it.  On an empty
    queue [get] waits, and [wait_for(..., timeout=1.0)] gives up after a
    second: [None]. *)
Definition get (w : World) (self : loc) : World * option ActorMessage :=
  match heap w !! self with
  | Some a =>
      match mailbox a with
      | message :: rest => (update self (set_mailbox rest) w, Some message)
      | [] => (w, None)
      end
  | None => (w, None)
  end.

(** One turn of the [while self._running] loop of [Actor._run], and the
    final [self.state = STOPPED] when the condition is false.  The first
    [except] clause takes every [asyncio.TimeoutError] raised in the [try]
    block, by the wait on the mailbox or by [receive]; the second one the
    other instances of [Exception].  [uuid] and [utcnow] are read by
    [_handle_error].

    A turn is taken here as a whole, from the test of the [while] to the
    end of the handler.  The loop of the code gives way to other tasks
    only inside the turn, at the wait on the mailbox and inside [receive],
    never at the test: a [stop] by another task therefore falls inside a
    turn, and the envelope that turn is waiting for is still handled.  The
    statements about this function are about single turns, or about turns
    during which no other task runs. *)
Definition _run_iter (receive : Handler) (w : World) (self : loc)
    (uuid : string) (utcnow : Z) : World * LoopStatus :=
  match heap w !! self with
  | None => (w, Crashed attribute_error)
  | Some a =>
      if _running a then
        match get w self with
        | (w, None) => (w, Looping)
        | (w, Some message) =>
            match receive w self message with
            | (w, None) => (w, Looping)
            | (w, Some e) =>
                if is_TimeoutError e then (w, Looping)
                else if is_Exception e then
                  (_handle_error w self e uuid utcnow, Looping)
                else (w, Crashed e)
            end
        end
      else (update self (set_state STOPPED) w, Exited)
  end.

(** Several turns of the loop, one per pair of draws in [draws]. *)
Fixpoint _run_loop (receive : Handler) (w : World) (self : loc)
    (draws : list (string * Z)) : World * LoopStatus :=
  match draws with
  | [] => (w, Looping)
  | (uuid, utcnow) :: rest =>
      match _run_iter receive w self uuid utcnow with
      | (w', Looping) => _run_loop receive w' self rest
      | r => r
      end
  end.

(** *** Interleavings

    An actor's loop and the senders are separate tasks.  [send] has a single
    [await], the [put] on an unbounded queue, which never suspends; so a run
    of the system, seen from the mailboxes, is a sequence of whole [send]
    calls and of [get]s by the dispatch loops, in any order. *)
Inductive Event :=
  | Send (message : ActorMessage)   (* one call of [ActorSystem.send] *)
  | Get (self : loc).               (* the loop of [self] takes an envelope *)

(** Runs the events in order.  The second component lists, in order, each
    envelope taken together with the actor that took it: the loop passes
    it to that actor's [receive] at once. *)
Fixpoint run (w : World) (events : list Event)
  : World * list (loc * ActorMessage) :=
  match events with
  | [] => (w, [])
  | Send message :: rest => run (send w message) rest
  | Get self :: rest =>
      match get w self with
      | (w', Some message) =>
          let '(w'', received) := run w' rest in
          (w'', (self, message) :: received)
      | (w', None) => run w' rest
      end
  end.

(** The envelopes [self] received, in order. *)
Definition received_by (self : loc) (trace : list (loc * ActorMessage))
  : list ActorMessage :=
  snd <$> filter (λ x, x.1 = self) trace.

(** The envelopes sent to an identity that the registry [reg] resolves to
    [self], in the order of the [send] calls. *)
Fixpoint sent_to (reg : gmap string loc) (self : loc) (events : list Event)
  : list ActorMessage :=
  match events with
  | [] => []
  | Send message :: rest =>
      if decide (reg !! recipient message = Some self)
      then message :: sent_to reg self rest
      else sent_to reg self rest
  | Get _ :: rest => sent_to reg self rest
  end.

End Runtime.
Export Runtime.

(** ** actors/command_actor.py and actors/web_search_actor.py *)

Module Handlers.

(** [executor.command.CommandResult], what [CommandExecutor.execute]
    returns. *)
Record ExecResult := mkExec {
  stdout : string;
  stderr : string;
  exit_code : Z;
  timeout : bool
}.

(** The reply envelope, built the same way by both handlers
    ([command_actor.py] lines 72 to 79, [web_search_actor.py] lines 59 to
    66).  [uuid] is drawn for the reply's id, [utcnow] read for its
    timestamp.  The reply's [correlation_id] is the request's
    [correlation_id]. *)
Definition reply_message (a : Actor) (message : ActorMessage)
    (result : PyVal) (uuid : string) (utcnow : Z) : ActorMessage :=
  {| id := "reply_" +:+ uuid;
     sender := Some (actor_id a);
     recipient := default "" (reply_to message);
     payload := result;
     message_type := KEnum RESPONSE;
     reply_to := None;
     correlation_id := correlation_id message;
     timestamp := utcnow |}.

Section collaborators.
(** The external collaborators, opaque to the runtime:
    [SafetyAgent.is_safe], [CommandExecutor.execute] and
    [WebSearchExecutor.search]. *)
Variable is_safe : string → bool * string.
Variable execute : string → Result ExecResult.
Variable search : string → Result PyVal.

(** [CommandActor._handle_execute_command].  [uuid] is drawn for the
    reply's id, [utcnow] read for its timestamp. *)
Definition _handle_execute_command (uuid : string) (utcnow : Z)
    (w : World) (self : loc) (message : ActorMessage) : Outcome :=
  match heap w !! self with
  | None => (w, Some attribute_error)
  | Some a =>
      match payload message with
      | VExecuteCommand command_str _ =>
          let '(safe, reason) := is_safe command_str in
          let result : Result PyVal :=
            if negb safe then
              Ok (VCommandResult false VNone
                    (Some ("Command rejected by safety agent. Reason: "
                           +:+ reason)))
            else
              match execute command_str with
              | Ok result_data =>
                  Ok (VCommandResult true
                        (VDict
                           [("stdout", VStr (stdout result_data));
                            ("stderr", VStr (stderr result_data));
                            ("exit_code", VInt (exit_code result_data));
                            ("timeout", VBool (timeout result_data))])
                        None)
              | Err e =>
                  if is_Exception e then
                    Ok (VCommandResult false VNone
                          (Some ("Command execution failed: "
                                 +:+ exc_str e)))
                  else Err e
              end in
          match result with
          | Err e => (w, Some e)
          | Ok result =>
              if truthy_opt (reply_to message) then
                (tell w self
                   (reply_message a message result uuid utcnow), None)
              else
                (logger info "no_reply_address"
                   [("message_id", VStr (id message))] w, None)
          end
      | _ =>
          (logger error "invalid_payload"
             [("actor_id", VStr (actor_id a))] w, None)
      end
  end.

(** [CommandActor.receive] *)
Definition CommandActor_receive (uuid : string) (utcnow : Z) : Handler :=
  λ w self message,
    if py_eq (message_type message) (KEnum EXECUTE_COMMAND) then
      _handle_execute_command uuid utcnow w self message
    else
      match heap w !! self with
      | None => (w, Some attribute_error)
      | Some a =>
          (logger warning "unknown_message_type"
             [("actor_id", VStr (actor_id a));
              ("message_type", kind_val (message_type message))] w,
           None)
      end.

(** [WebSearchActor._handle_web_search] *)
Definition _handle_web_search (uuid : string) (utcnow : Z)
    (w : World) (self : loc) (message : ActorMessage) : Outcome :=
  match heap w !! self with
  | None => (w, Some attribute_error)
  | Some a =>
      match payload message with
      | VWebSearchQuery query max_results =>
          let result : Result PyVal :=
            match search query with
            | Ok results =>
                Ok (VCommandResult true
                      (VDict [("results", results);
                              ("query", VStr query);
                              ("max_results", VInt max_results)])
                      None)
            | Err e =>
                if is_Exception e then
                  Ok (VCommandResult false VNone
                        (Some ("Web search failed: " +:+ exc_str e)))
                else Err e
            end in
          match result with
          | Err e => (w, Some e)
          | Ok result =>
              if truthy_opt (reply_to message) then
                (tell w self
                   (reply_message a message result uuid utcnow), None)
              else
                (logger info "no_reply_address"
                   [("message_id", VStr (id message))] w, None)
          end
      | _ =>
          (logger error "invalid_payload"
             [("actor_id", VStr (actor_id a))] w, None)
      end
  end.

(** [WebSearchActor.receive] *)
Definition WebSearchActor_receive (uuid : string) (utcnow : Z)
  : Handler :=
  λ w self message,
    if py_eq (message_type message) (KEnum WEB_SEARCH) then
      _handle_web_search uuid utcnow w self message
    else
      match heap w !! self with
      | None => (w, Some attribute_error)
      | Some a =>
          (logger warning "unknown_message_type"
             [("actor_id", VStr (actor_id a));
              ("message_type", kind_val (message_type message))] w,
           None)
      end.
End collaborators.

End Handlers.
Export Handlers.

(** ** The supervision tree, as the store records it *)

Module Supervision.

(** [child w x c]: the actor registered as [x] records [c] in its
    [children]. *)
Definition child (w : World) (x c : string) : Prop :=
  ∃ r a, actors w !! x = Some r ∧ heap w !! r = Some a ∧ c ∈ children a.

(** [descendant w x y]: [y] is [x] or one of its transitively recorded
    children. *)
Definition descendant (w : World) : relation string := rtc (child w).

(** Every registered reference has its object, and the object is attached
    to the system: [spawn] sets [actor.system] on everything it
    registers. *)
Definition attached (w : World) : Prop :=
  map_Forall (λ _ r, system <$> heap w !! r = Some true) (actors w).

(** No cycle below [root]: [rank] strictly decreases from every actor
    below [root] to each of its recorded children. *)
Definition ranked (w : World) (rank : string → nat) (root : string) : Prop :=
  ∀ x c, descendant w root x → child w x c → rank c < rank x.

(** The same for the whole registry, in a form that can be computed. *)
Definition children_ranked (w : World) (rank : string → nat) (x : string)
    (r : loc) : Prop :=
  match heap w !! r with
  | Some a => set_Forall (λ c, rank c < rank x) (children a)
  | None => True
  end.

Definition well_ranked (w : World) (rank : string → nat) : Prop :=
  map_Forall (children_ranked w rank) (actors w).

Global Instance children_ranked_dec w rank x r :
  Decision (children_ranked w rank x r).
Proof. unfold children_ranked. destruct (heap w !! r); apply _. Defined.

Global Instance well_ranked_dec w rank : Decision (well_ranked w rank).
Proof. unfold well_ranked. apply _. Defined.

Global Instance attached_dec w : Decision (attached w).
Proof. unfold attached. apply _. Defined.

(** What [stop] may change in an actor object: [_running], from true to
    false only, and [children], by removing some. *)
Definition same_but_stopped (a a' : Actor) : Prop :=
  actor_id a' = actor_id a
  ∧ mailbox a' = mailbox a
  ∧ system a' = system a
  ∧ parent_id a' = parent_id a
  ∧ state a' = state a
  ∧ children a' ⊆ children a
  ∧ (_running a = false → _running a' = false).

(** [frame w w']: from [w] to [w'] the store keeps its objects, each one
    changed at most as [stop] may; an identity that left a [children] set is
    no longer registered; and the registry only lost entries. *)
Definition frame (w w' : World) : Prop :=
  (∀ r a, heap w !! r = Some a →
     ∃ a', heap w' !! r = Some a'
           ∧ same_but_stopped a a'
           ∧ ∀ c, c ∈ children a → c ∉ children a' → actors w' !! c = None)
  ∧ (∀ r, heap w !! r = None → heap w' !! r = None)
  ∧ (∀ x r, actors w' !! x = Some r → actors w !! x = Some r).

(** [closed w w']: every actor that left the registry was told to stop, and
    its recorded children left the registry too. *)
Definition closed (w w' : World) : Prop :=
  ∀ x r, actors w !! x = Some r → actors w' !! x = None →
    (∃ a', heap w' !! r = Some a' ∧ _running a' = false)
    ∧ ∀ a c, heap w !! r = Some a → c ∈ children a → actors w' !! c = None.

(** [only_below w roots w']: whatever left the registry was below one of
    [roots]. *)
Definition only_below (w : World) (roots : list string) (w' : World)
  : Prop :=
  ∀ x, is_Some (actors w !! x) → actors w' !! x = None →
    ∃ c, c ∈ roots ∧ descendant w c x.

(** A listing of sets: every element, and nothing else. *)
Definition lists_sets (listing : gset string → list string) : Prop :=
  ∀ (X : gset string) (c : string), c ∈ listing X ↔ c ∈ X.

(** [i] is not in the child set of the parent its actor names, when that
    parent is registered in [w']. *)
Definition left_parent (w : World) (i : string) (w' : World) : Prop :=
  ∀ r a p rp pa,
    actors w !! i = Some r → heap w !! r = Some a →
    parent_id a = Some p → truthy p = true →
    actors w' !! p = Some rp → heap w' !! rp = Some pa →
    i ∉ children pa.

(** What a completed [stop] of [i] leaves. *)
Definition stopped_from (w : World) (i : string) (w' : World) : Prop :=
  frame w w' ∧ closed w w' ∧ actors w' !! i = None ∧ only_below w [i] w'
  ∧ left_parent w i w'.

End Supervision.
Export Supervision.

(** ** The rest of message.py: [from_dict] *)

Module Dict.

(** [d.get(key)] on a dict in insertion order: [None] when the key is
    missing. *)
Fixpoint dict_get (d : list (string * PyVal)) (key : string)
  : option PyVal :=
  match d with
  | [] => None
  | (k, v) :: rest => if decide (k = key) then Some v else dict_get rest key
  end.

(** [d[key]]: a missing key raises [KeyError(key)], whose [str] is the
    key's [repr]. *)
Definition dict_item (d : list (string * PyVal)) (key : string)
  : Result PyVal :=
  match dict_get d key with
  | Some v => Ok v
  | None => Err (mkExc KeyError ("'" +:+ key +:+ "'"))
  end.

(** The members of [MessageType], in the order of the class body. *)
Definition members : list MessageType :=
  [DEFAULT; REQUEST; RESPONSE; Message.ERROR; SPAWN_SUBAGENT;
   EXECUTE_COMMAND; WEB_SEARCH; DELEGATE_TASK].

(** The call [MessageType(v)]: a member is returned as it is, a value is
    looked up among the members' values, and anything else raises
    [ValueError] (an [Exception] like any other for the runtime). *)
Definition MessageType_call (v : PyVal) : Result MessageType :=
  match v with
  | VMessageType m => Ok m
  | VStr s =>
      match List.find (λ m, bool_decide (value m = s)) members with
      | Some m => Ok m
      | None =>
          Err (mkExc OtherException
                 ("'" +:+ s +:+ "' is not a valid MessageType"))
      end
  | _ => Err (mkExc OtherException "not a valid MessageType")
  end.

(** An [Optional[str]] field read back from a dict value. *)
Definition as_opt_str (v : option PyVal) : option (option string) :=
  match v with
  | None | Some VNone => Some None
  | Some (VStr s) => Some (Some s)
  | Some _ => None
  end.

Section from_dict.
(** [datetime.fromisoformat], on a string. *)
Variable fromisoformat : string → Result Z.

(** [ActorMessage.from_dict].  The keyword arguments are evaluated in the
    order they are written: [data["id"]], [data.get("sender")],
    [data["recipient"]], [data["payload"]], the two other [get]s,
    [fromisoformat(data["timestamp"])] and [MessageType(...)]; the first
    one that raises decides.  The dataclass stores whatever it is given;
    the record here holds strings, so on a dict that would build an
    envelope with another kind of value in [id], [recipient], [sender],
    [reply_to] or [correlation_id] the result is [None]: outside what is
    modelled. *)
Definition from_dict (data : list (string * PyVal))
  : option (Result ActorMessage) :=
  match dict_item data "id" with
  | Err e => Some (Err e)
  | Ok v_id =>
  match dict_item data "recipient" with
  | Err e => Some (Err e)
  | Ok v_recipient =>
  match dict_item data "payload" with
  | Err e => Some (Err e)
  | Ok v_payload =>
  match dict_item data "timestamp" with
  | Err e => Some (Err e)
  | Ok v_timestamp =>
  match (match v_timestamp with
         | VStr s => fromisoformat s
         | _ => Err (mkExc TypeError
                       "fromisoformat: argument must be str")
         end) with
  | Err e => Some (Err e)
  | Ok ts =>
  match MessageType_call
          (default (VStr "default") (dict_get data "message_type")) with
  | Err e => Some (Err e)
  | Ok mt =>
  match v_id, v_recipient,
        as_opt_str (dict_get data "sender"),
        as_opt_str (dict_get data "reply_to"),
        as_opt_str (dict_get data "correlation_id") with
  | VStr i, VStr r, Some s, Some rt, Some c =>
      Some (Ok {| id := i; recipient := r; payload := v_payload;
                  message_type := KEnum mt; sender := s; reply_to := rt;
                  correlation_id := c; timestamp := ts |})
  | _, _, _, _, _ => None
  end end end end end end end.
End from_dict.

End Dict.
Export Dict.

(** ** The rest of system.py and of the supervision tree *)

Module Registry.

(** Every registered object is registered under its own identity. *)
Definition keyed (w : World) : Prop :=
  ∀ x r a, actors w !! x = Some r → heap w !! r = Some a → actor_id a = x.

(** A listing of the keys of the registry: [list(self.actors.keys())]. *)
Definition lists_keys (keys : gmap string loc → list string) : Prop :=
  ∀ (m : gmap string loc) (x : string), x ∈ keys m ↔ is_Some (m !! x).

(** [ActorSystem.stop_all]: the identities registered when the call
    starts are stopped one after the other, each with a top-level call of
    [stop]. *)
Definition stop_all (listing : gset string → list string)
    (keys : gmap string loc → list string) (depth : nat) (w : World)
  : Result World :=
  foldM (stop listing depth) w (keys (actors w)).

End Registry.
Export Registry.

(** ** agents/safety_agent.py *)

Module Safety.

(** [SafetyAgent.FORBIDDEN_PATTERNS], the regular expressions as
    written. *)
Definition FORBIDDEN_PATTERNS : list string :=
  [ "rm\s+-rf\s+/(?!tmp)";
    "format\s+";
    "del\s+/[sq]";
    ">\s*/dev/sd";
    "mkfs\.";
    "dd\s+if=.*of=/dev/";
    "shutdown";
    "reboot" ].

Section is_safe.
(** The library functions [is_safe] calls:
    [re.search(pattern, command, re.IGNORECASE)] found a match, and
    [command.split()]. *)
Variable re_search : string → string → bool.
Variable split : string → list string.

(** The first forbidden pattern found in the command: the [for] loop
    returns at the first match. *)
Definition forbidden (command : string) : option string :=
  List.find (λ pattern, re_search pattern command) FORBIDDEN_PATTERNS.

(** [SafetyAgent.is_safe], for an agent built with the list
    [allowed_commands]. *)
Definition is_safe (allowed_commands : list string) (command : string)
  : bool * string :=
  if negb (truthy command) then (false, "Empty command")
  else if bool_decide ("*" ∈ allowed_commands) then
    match forbidden command with
    | Some pattern =>
        (false, "Command matches forbidden pattern: " +:+ pattern)
    | None => (true, "All commands allowed (*)")
    end
  else
    let base_cmd :=
      match split command with
      | first :: _ => first
      | [] => ""
      end in
    if negb (bool_decide (base_cmd ∈ allowed_commands)) then
      (false, "Command '" +:+ base_cmd +:+ "' is not in the allowed list")
    else
      match forbidden command with
      | Some pattern =>
          (false, "Command matches forbidden pattern: " +:+ pattern)
      | None => (true, "Safe")
      end.
End is_safe.

End Safety.
Export Safety.

(** ** agents/sub_agent.py and the [receive] of agents/actor_agent.py *)

Module Agents.

Section SubAgent.
(** What the handler gets from outside: [provider.generate(messages)],
    giving the [content] and [model] of the response or raising; [str(x)];
    the slice [x[:50]], which raises on a value that cannot be sliced; and
    the agent's [system_prompt]. *)
Variable generate : list (string * PyVal) → Result (string * string).
Variable py_str : PyVal → string.
Variable slice50 : PyVal → Result PyVal.
Variable system_prompt : string.

(** The task read from the payload: for a dict,
    [task.get("task", task.get("content", str(task)))], else
    [str(task)]. *)
Definition task_text_of (task : PyVal) : PyVal :=
  match task with
  | VDict d =>
      default (default (VStr (py_str task)) (dict_get d "content"))
              (dict_get d "task")
  | _ => VStr (py_str task)
  end.

(** The two envelopes the handler can send.  Both carry the request's
    [id] as [correlation_id]. *)
Definition result_message (a : Actor) (message : ActorMessage)
    (task_text : PyVal) (response : string * string) (uuid : string)
    (utcnow : Z) : ActorMessage :=
  {| id := "result_" +:+ uuid;
     sender := Some (actor_id a);
     recipient := default "" (reply_to message);
     payload := VDict [("task", task_text);
                       ("result", VStr response.1);
                       ("model", VStr response.2);
                       ("success", VBool true)];
     message_type := KEnum RESPONSE;
     reply_to := None;
     correlation_id := Some (id message);
     timestamp := utcnow |}.

Definition task_error_message (a : Actor) (message : ActorMessage)
    (e : PyExc) (uuid : string) (utcnow : Z) : ActorMessage :=
  {| id := "error_" +:+ uuid;
     sender := Some (actor_id a);
     recipient := default "" (reply_to message);
     payload := VDict [("task", VStr (py_str (payload message)));
                       ("error", VStr (exc_str e));
                       ("success", VBool false)];
     message_type := KEnum Message.ERROR;
     reply_to := None;
     correlation_id := Some (id message);
     timestamp := utcnow |}.

(** The [try] block of [_handle_delegated_task]: the world it leaves, and
    the exception if one was raised in it. *)
Definition try_delegated_task (a : Actor) (uuid : string) (utcnow : Z)
    (w : World) (message : ActorMessage) : World * option PyExc :=
  let task_text := task_text_of (payload message) in
  match slice50 task_text with
  | Err e => (w, Some e)
  | Ok preview =>
      let w := logger info "processing_delegated_task"
                 [("actor_id", VStr (actor_id a));
                  ("task_preview", preview)] w in
      match generate [("system", VStr system_prompt);
                      ("user", task_text)] with
      | Err e => (w, Some e)
      | Ok response =>
          if truthy_opt (reply_to message) && system a then
            let w := send w (result_message a message task_text response
                               uuid utcnow) in
            (logger info "task_result_sent"
               [("actor_id", VStr (actor_id a));
                ("recipient", opt_str (reply_to message))] w, None)
          else
            (logger warning "no_reply_to_address"
               [("actor_id", VStr (actor_id a));
                ("has_reply_to", VBool (truthy_opt (reply_to message)));
                ("has_system", VBool (system a))] w, None)
      end
  end.

(** [SubAgent._handle_delegated_task]: the [try] block, and the
    [except Exception] clause around it.  Only one envelope is built in a
    call, so one [uuid] and one clock reading are enough. *)
Definition _handle_delegated_task (uuid : string) (utcnow : Z) (w : World)
    (self : loc) (message : ActorMessage) : Outcome :=
  match heap w !! self with
  | None => (w, Some attribute_error)
  | Some a =>
      match try_delegated_task a uuid utcnow w message with
      | (w, None) => (w, None)
      | (w, Some e) =>
          if is_Exception e then
            let w := logger error "task_processing_error"
                       [("actor_id", VStr (actor_id a));
                        ("error", VStr (exc_str e))] w in
            if truthy_opt (reply_to message) && system a then
              (send w (task_error_message a message e uuid utcnow), None)
            else (w, None)
          else (w, Some e)
      end
  end.

(** [SubAgent.receive].  The second test of the [or] reads
    [message.message_type.value], which a string does not have. *)
Definition SubAgent_receive (uuid : string) (utcnow : Z) : Handler :=
  λ w self message,
    let test : Result bool :=
      if py_eq (message_type message) (KEnum DELEGATE_TASK) then Ok true
      else
        let* v := kind_value (message_type message) in
        Ok (bool_decide (v = "delegate_task")) in
    match test with
    | Err e => (w, Some e)
    | Ok true => _handle_delegated_task uuid utcnow w self message
    | Ok false =>
        match heap w !! self with
        | None => (w, Some attribute_error)
        | Some a =>
            (logger warning "unsupported_message_type"
               [("message_type", kind_val (message_type message));
                ("actor_id", VStr (actor_id a))] w, None)
        end
    end.
End SubAgent.

(** [ActorAgent.receive].  The kinds are compared with the strings
    ["child_result"] and ["child_error"]; [message.payload.get] exists on
    a dict only. *)
Definition ActorAgent_receive : Handler :=
  λ w self message,
    if py_eq (message_type message) (KStr "child_result") then
      (logger info "received_child_result"
         [("actor_id", opt_str (sender message))] w, None)
    else if py_eq (message_type message) (KStr "child_error") then
      match payload message with
      | VDict d =>
          (logger error "received_child_error"
             [("actor_id", opt_str (sender message));
              ("error", default VNone (dict_get d "error"))] w, None)
      | _ =>
          (w, Some (mkExc AttributeError "object has no attribute 'get'"))
      end
    else
      (logger warning "unknown_message_type"
         [("message_type", kind_val (message_type message))] w, None).

End Agents.
Export Agents.

(** ** Concrete worlds

    Built with the operations themselves, so each of them is a world the
    program can be in. *)

Module Examples.

(** [spawn], for a call known to succeed. *)
Definition spawned (w : World) (actor : loc) (parent_id : option string)
  : World :=
  match spawn w actor parent_id with
  | Ok (w', _) => w'
  | Err _ => w
  end.

(** Two actor objects built with the same identity ["A"]; the first one is
    spawned. *)
Definition one_A : World :=
  let '(w, a) := alloc (Actor_init (Some "A") "00000001") empty_world in
  let '(w, _) := alloc (Actor_init (Some "A") "00000002") w in
  spawned w a None.

(** A request with only [id], [recipient], [payload] and [message_type]
    passed, and the same call without the [id]. *)
Definition args_m1 : InitArgs :=
  mkArgs (Some "m1") (Some "A") (Some (VStr "hi")) (Some (KEnum REQUEST))
         None None None None.

(** The scenario of the specification: an actor ["A"] (object 0) and a
    caller (object 1), both spawned, their loops entered. *)
Definition A_and_caller : World :=
  let '(w, a) := alloc (Actor_init (Some "A") "00000001") empty_world in
  let '(w, c) := alloc (Actor_init (Some "caller") "00000002") w in
  let w := spawned (spawned w a None) c None in
  _run_enter (_run_enter w a) c.

(** The request of the scenario: id ["m1"], no [correlation_id]. *)
Definition request_m1 : ActorMessage :=
  {| id := "m1"; recipient := "A"; payload := ExecuteCommand "echo hi";
     message_type := KEnum EXECUTE_COMMAND; sender := Some "caller";
     reply_to := Some "caller"; correlation_id := None; timestamp := 0 |}.

Definition search_m1 : ActorMessage :=
  {| id := "m1"; recipient := "A"; payload := WebSearchQuery "rocq";
     message_type := KEnum WEB_SEARCH; sender := Some "caller";
     reply_to := Some "caller"; correlation_id := None; timestamp := 0 |}.

(** Collaborators that answer at once. *)
Definition always_safe : string → bool * string := λ _, (true, "Safe").
Definition echo : string → Result ExecResult :=
  λ _, Ok (mkExec "hi" "" 0 false).
Definition no_results : string → Result PyVal := λ _, Ok (VList []).

(** A reply to [request_m1] as the protocol wants it: addressed to the
    caller, with the request's id as [correlation_id]. *)
Definition reply_m1 : ActorMessage :=
  {| id := "reply_0000000a"; recipient := "caller";
     payload := VCommandResult true VNone None;
     message_type := KEnum RESPONSE; sender := Some "A";
     reply_to := None; correlation_id := Some "m1"; timestamp := 1 |}.

(** A parent ["P"] (object 0) and its child ["C"] (object 1), spawned under
    it, both loops entered; the child's mailbox holds two envelopes. *)
Definition envelope (i : string) (from to : string) : ActorMessage :=
  {| id := i; recipient := to; payload := VStr i;
     message_type := KEnum REQUEST; sender := Some from;
     reply_to := None; correlation_id := None; timestamp := 0 |}.

Definition P_and_C : World :=
  let '(w, p) := alloc (Actor_init (Some "P") "00000001") empty_world in
  let '(w, c) := alloc (Actor_init (Some "C") "00000002") w in
  let w := spawned (spawned w p None) c (Some "P") in
  let w := _run_enter (_run_enter w p) c in
  send (send w (envelope "bad" "P" "C")) (envelope "good" "P" "C").

(** A handler that raises [e] on the envelope ["bad"] and returns on every
    other one. *)
Definition raising (e : PyExc) : Handler :=
  λ w self message,
    if decide (id message = "bad") then (w, Some e) else (w, None).

(** A handler that, on the envelope ["bad"], asks the parent a question
    with [self.ask] and lets the timeout of [ask] pass (nobody answers while
    it waits); it returns on every other envelope. *)
Definition asking : Handler :=
  λ w self message,
    if decide (id message = "bad") then
      match ask w self (envelope "question" "C" "P") 30 (λ w, w) with
      | (w', Ok _) => (w', None)
      | (w', Err e) => (w', Some e)
      end
    else (w, None).

(** An actor spawned with itself as parent. *)
Definition own_parent : World :=
  let '(w, a) := alloc (Actor_init (Some "A") "00000001") empty_world in
  spawned w a (Some "A").

(** A parent ["P"] (object 0) with children ["C1"] and ["C2"] (objects 1 and
    2), and ["G"] (object 3) a child of ["C1"]; ["X"] (object 4) stands
    apart. *)
Definition family : World :=
  let '(w, p) := alloc (Actor_init (Some "P") "00000001") empty_world in
  let '(w, c1) := alloc (Actor_init (Some "C1") "00000002") w in
  let '(w, c2) := alloc (Actor_init (Some "C2") "00000003") w in
  let '(w, g) := alloc (Actor_init (Some "G") "00000004") w in
  let '(w, x) := alloc (Actor_init (Some "X") "00000005") w in
  let w := spawned w p None in
  let w := spawned w c1 (Some "P") in
  let w := spawned w c2 (Some "P") in
  let w := spawned w g (Some "C1") in
  spawned w x None.

(** Depths in [family]. *)
Definition family_rank (i : string) : nat :=
  if decide (i = "P") then 2 else if decide (i = "C1") then 1 else 0.

End Examples.
Export Examples.

(** ** More concrete inputs *)

Module MoreExamples.

(** A clock format for the examples: the reading as a decimal number of
    one digit, read back the same way. *)
Definition iso_digit (t : Z) : string :=
  if decide (t = 0%Z) then "0" else "1".
Definition from_iso_digit (s : string) : Result Z :=
  if decide (s = "0") then Ok 0%Z
  else if decide (s = "1") then Ok 1%Z
  else Err (mkExc OtherException "Invalid isoformat string").

(** The dict of a child-failed envelope as another program would write
    it. *)
Definition child_error_dict : list (string * PyVal) :=
  [("id", VStr "error_0000000e"); ("sender", VStr "C");
   ("recipient", VStr "P"); ("payload", VDict []);
   ("reply_to", VNone); ("correlation_id", VNone);
   ("timestamp", VStr "0"); ("message_type", VStr "child_error")].

(** A delegated task for ["A"], and stand-ins for the provider and the
    two library functions of the sub-agent. *)
Definition delegate_m1 : ActorMessage :=
  {| id := "m1"; recipient := "A"; payload := VDict [("task", VStr "sum")];
     message_type := KEnum DELEGATE_TASK; sender := Some "caller";
     reply_to := Some "caller"; correlation_id := None; timestamp := 0 |}.

Definition answer : list (string * PyVal) → Result (string * string) :=
  λ _, Ok ("42", "some-model").
Definition str_of : PyVal → string :=
  λ v, match v with VStr s => s | _ => "..." end.
Definition slice_of : PyVal → Result PyVal :=
  λ v, match v with
       | VStr _ | VList _ => Ok v
       | _ => Err (mkExc TypeError "object is not subscriptable")
       end.

(** The child-failed envelope ["C"] sends, put in a mailbox of a running
    ["A"]. *)
Definition child_failed : ActorMessage :=
  error_message (set_parent_id (Some "A") (Actor_init (Some "C") ""))
    (mkExc OtherException "boom") "0000000e" 7.

(** [stop] at depth 3, for a call known to return. *)
Definition stopped (w : World) (i : string) : World :=
  match stop elements 3 w i with
  | Ok w' => w'
  | Err _ => w
  end.

End MoreExamples.
Export MoreExamples.

(** * Properties *)

(** ** Envelopes *)






(** An enum-dispatching handler takes the [else] branch on the envelope:
    [CommandActor.receive] logs [unknown_message_type] and does nothing
    else. *)
Lemma CommandActor_receive_child_error
    (is_safe : string → bool * string) (execute : string → Result ExecResult)
    (u u' : string) (t t' : Z) (w : World) (self : loc) (a a' : Actor)
    (err : PyExc) :
  heap w !! self = Some a →
  CommandActor_receive is_safe execute u t w self (error_message a' err u' t')
  = (logger warning "unknown_message_type"
       [("actor_id", VStr (actor_id a));
        ("message_type", VStr "child_error")] w, None).
Proof. intros Ha. unfold CommandActor_receive. simpl. by rewrite Ha. Qed.

(** ** The registry: [send], [broadcast], [spawn] *)

Section send.
Context (w : World) (message : ActorMessage).

Lemma send_actors : actors (send w message) = actors w.
Proof. unfold send. by destruct (actors w !! recipient message). Qed.

Lemma send_tasks : tasks (send w message) = tasks w.
Proof. unfold send. by destruct (actors w !! recipient message). Qed.

Lemma send_absent :
  actors w !! recipient message = None →
  send w message
  = logger warning "actor_not_found"
      [("actor_id", VStr (recipient message))] w.
Proof. intros H. unfold send. by rewrite H. Qed.

Lemma send_present (r : loc) :
  actors w !! recipient message = Some r →
  send w message = update r (put message) w.
Proof. intros H. unfold send. by rewrite H. Qed.

Lemma send_heap_dom (r : loc) :
  is_Some (heap (send w message) !! r) ↔ is_Some (heap w !! r).
Proof.
  unfold send. destruct (actors w !! recipient message) as [r'|]; [|done].
  simpl. rewrite lookup_alter. case_decide; [subst|done].
  by rewrite <- !not_eq_None_Some, fmap_None.
Qed.
End send.

(** C7.  [send] is a total function of the world and the envelope: it has
    no exception to raise.  When the recipient is not in the registry, the
    only change is one [warning] entry [actor_not_found] in the log: the
    store (every actor, every mailbox), the registry and the tasks are the
    same.  When the recipient is registered, the envelope is appended to
    the mailbox of the actor the registry gives for it, and no other actor,
    nor the registry, nor the log changes. *)
Theorem send_drops_or_enqueues (w : World) (message : ActorMessage) :
  (actors w !! recipient message = None →
     send w message
     = mkWorld (heap w) (actors w) (tasks w)
         (log w ++ [mkLog warning "actor_not_found"
                      [("actor_id", VStr (recipient message))]]))
  ∧ (∀ r : loc,
       actors w !! recipient message = Some r →
       actors (send w message) = actors w
       ∧ tasks (send w message) = tasks w
       ∧ log (send w message) = log w
       ∧ (∀ a, heap w !! r = Some a →
            heap (send w message) !! r
            = Some (set_mailbox (mailbox a ++ [message]) a))
       ∧ (∀ r', r' ≠ r → heap (send w message) !! r' = heap w !! r')).
Proof.
  split.
  - intros H. by rewrite send_absent.
  - intros r H. rewrite (send_present _ _ r H). simpl.
    repeat split; try done.
    + intros a Ha. by rewrite lookup_alter_eq, Ha.
    + intros r' Hne. by rewrite lookup_alter_ne.
Qed.

(** The copy differs from the original in its recipient only. *)
Lemma msg_copy_fields (message : ActorMessage) (actor_id : string) :
  let c := msg_copy message actor_id in
  id c = id message
  ∧ sender c = sender message
  ∧ payload c = payload message
  ∧ message_type c = message_type message
  ∧ reply_to c = reply_to message
  ∧ correlation_id c = correlation_id message
  ∧ timestamp c = timestamp message
  ∧ recipient c = actor_id.
Proof. cbv zeta. by repeat split. Qed.

Lemma broadcast_actors (w : World) (message : ActorMessage)
    (actor_ids : list string) :
  actors (broadcast w message actor_ids) = actors w.
Proof.
  revert w. induction actor_ids as [|i ids IH]; intros w; [done|].
  simpl. by rewrite IH, send_actors.
Qed.

Lemma broadcast_tasks (w : World) (message : ActorMessage)
    (actor_ids : list string) :
  tasks (broadcast w message actor_ids) = tasks w.
Proof.
  revert w. induction actor_ids as [|i ids IH]; intros w; [done|].
  simpl. by rewrite IH, send_tasks.
Qed.

(** After [broadcast], the mailbox of an actor holds, after what it held,
    one copy for each occurrence in the list of an identity registered for
    that actor, in the order of the list. *)
Lemma broadcast_heap (w : World) (message : ActorMessage)
    (actor_ids : list string) (r : loc) (a : Actor) :
  heap w !! r = Some a →
  heap (broadcast w message actor_ids) !! r
  = Some (set_mailbox
            (mailbox a
             ++ (msg_copy message
                 <$> filter (λ i, actors w !! i = Some r) actor_ids)) a).
Proof.
  revert w a. induction actor_ids as [|i ids IH]; intros w a Ha.
  - simpl. rewrite app_nil_r. by destruct a.
  - simpl broadcast. rewrite filter_cons.
    destruct (decide (actors w !! i = Some r)) as [Hi|Hi].
    + erewrite IH; last first.
      { rewrite (send_present _ _ r); [|done]. simpl.
        by rewrite lookup_alter_eq, Ha. }
      rewrite send_actors. simpl. by rewrite <- app_assoc.
    + erewrite IH; last first.
      { unfold send. simpl.
        destruct (actors w !! i) as [r'|] eqn:Hr'; [|done].
        simpl. rewrite lookup_alter_ne; [done|congruence]. }
      by rewrite send_actors.
Qed.

(** The log grows by one warning for each unregistered identity. *)
Lemma broadcast_log (w : World) (message : ActorMessage)
    (actor_ids : list string) :
  log (broadcast w message actor_ids)
  = log w
    ++ ((λ i, mkLog warning "actor_not_found" [("actor_id", VStr i)])
        <$> filter (λ i, actors w !! i = None) actor_ids).
Proof.
  revert w. induction actor_ids as [|i ids IH]; intros w.
  - simpl. by rewrite app_nil_r.
  - simpl broadcast. rewrite filter_cons, IH, send_actors.
    unfold send. simpl. destruct (actors w !! i) as [r'|] eqn:Hr'.
    + by rewrite decide_False.
    + rewrite decide_True by done. simpl. by rewrite <- app_assoc.
Qed.

(** C8.  [broadcast] is total (no error reaches the caller) and leaves the
    registry as it is.  Each copy it sends equals the original in [id],
    [sender], [payload], [message_type], [reply_to], [correlation_id] and
    [timestamp], and has the target as [recipient].  The mailbox of every
    actor grows by exactly the copies made for the identities of the list
    that are registered for it, one per occurrence, and an unregistered
    identity leaves only a warning in the log. *)
Theorem broadcast_copies (w : World) (message : ActorMessage)
    (actor_ids : list string) :
  let w' := broadcast w message actor_ids in
  actors w' = actors w
  ∧ (∀ i : string,
       let c := msg_copy message i in
       id c = id message ∧ sender c = sender message
       ∧ payload c = payload message
       ∧ message_type c = message_type message
       ∧ reply_to c = reply_to message
       ∧ correlation_id c = correlation_id message
       ∧ timestamp c = timestamp message
       ∧ recipient c = i)
  ∧ (∀ (r : loc) (a : Actor),
       heap w !! r = Some a →
       heap w' !! r
       = Some (set_mailbox
                 (mailbox a
                  ++ (msg_copy message
                      <$> filter (λ i, actors w !! i = Some r) actor_ids))
                 a))
  ∧ log w'
    = log w
      ++ ((λ i, mkLog warning "actor_not_found" [("actor_id", VStr i)])
          <$> filter (λ i, actors w !! i = None) actor_ids).
Proof.
  cbv zeta. split; [apply broadcast_actors|]. split; [|split].
  - intros i. apply msg_copy_fields.
  - intros r a. apply broadcast_heap.
  - apply broadcast_log.
Qed.

(** C1, a registry that already holds ["A"]: spawning a second actor object
    with the same identity succeeds and returns ["A"], and the registry
    entry for ["A"], which was the first object, is now the second. *)
Lemma spawn_duplicate_replaces :
  actors one_A !! "A" = Some 0
  ∧ ∃ w', spawn one_A 1 None = Ok (w', "A")
          ∧ actors w' !! "A" = Some 1
          ∧ actors w' !! "A" ≠ actors one_A !! "A".
Proof.
  split; [by vm_compute|]. eexists. split; [by vm_compute|].
  split; by vm_compute.
Qed.

Lemma spawn_result (w : World) (actor : loc) (parent : option string)
    (a : Actor) :
  heap w !! actor = Some a →
  ∃ w', spawn w actor parent = Ok (w', actor_id a)
        ∧ actors w' = <[actor_id a := actor]> (actors w)
        ∧ tasks w' = tasks w ++ [actor].
Proof.
  intros Ha. unfold spawn. rewrite Ha. eexists. split; [done|].
  simpl. destruct (truthy_opt parent); simpl; [|done].
  by destruct (_ !! default "" parent).
Qed.

(** C1, as the code has it.  [spawn] has no duplicate check and no
    [DuplicateIdentity]: for every actor object, whether or not its identity
    is registered, the call succeeds and returns the actor's identity; the
    registry then maps that identity to the spawned object (in place of
    whatever it mapped it to) and every other identity as before; and one
    more dispatch loop is started for the object. *)
Theorem spawn_overwrites (w : World) (actor : loc) (parent : option string)
    (a : Actor) :
  heap w !! actor = Some a →
  ∃ w', spawn w actor parent = Ok (w', actor_id a)
        ∧ actors w' !! actor_id a = Some actor
        ∧ (∀ i, i ≠ actor_id a → actors w' !! i = actors w !! i)
        ∧ tasks w' = tasks w ++ [actor].
Proof.
  intros Ha. destruct (spawn_result w actor parent a Ha) as (w' & Hs & Hr & Ht).
  exists w'. rewrite Hr. split; [done|]. split; [apply lookup_insert_eq|].
  split; [|done]. intros i Hi. by apply lookup_insert_ne.
Qed.

Lemma spawn_overwrites_witness :
  ∃ w', spawn one_A 1 None = Ok (w', "A")
        ∧ actors w' !! "A" = Some 1
        ∧ (∀ i, i ≠ "A" → actors w' !! i = actors one_A !! i)
        ∧ tasks w' = tasks one_A ++ [1].
Proof.
  apply (spawn_overwrites one_A 1 None (Actor_init (Some "A") "00000002")).
  by vm_compute.
Defined.

(** *** Registered actors are attached *)

Lemma lookup_alter_system (f : Actor → Actor) (r r0 : loc)
    (h : gmap loc Actor) :
  (∀ a, system (f a) = system a) →
  system <$> alter f r h !! r0 = system <$> h !! r0.
Proof.
  intros Hf. destruct (decide (r = r0)) as [->|Hne].
  - rewrite lookup_alter_eq. destruct (h !! r0); simpl; [|done].
    by rewrite Hf.
  - by rewrite lookup_alter_ne.
Qed.

Lemma empty_world_attached : attached empty_world.
Proof. apply map_Forall_empty. Qed.

(** [spawn] keeps the invariant: it sets [system] on the actor it
    registers, and changes the [system] of no other object. *)
Lemma spawn_attached (w w' : World) (actor : loc) (parent : option string)
    (i : string) :
  attached w → spawn w actor parent = Ok (w', i) → attached w'.
Proof.
  intros Hatt. unfold spawn. destruct (heap w !! actor) as [a|] eqn:Ha; [|done].
  intros [= <- <-]. intros x r. simpl.
  assert (∀ h, system <$> h !! r = Some true →
            system <$> (heap
              (if truthy_opt parent
               then match <[actor_id a:=actor]> (actors w)
                            !! default "" parent with
                    | Some p =>
                        update p (λ p0, set_children
                                          ({[actor_id a]} ∪ children p0) p0)
                          (mkWorld h (<[actor_id a:=actor]> (actors w))
                             (tasks w) (log w))
                    | None =>
                        mkWorld h (<[actor_id a:=actor]> (actors w))
                          (tasks w) (log w)
                    end
               else mkWorld h (<[actor_id a:=actor]> (actors w))
                      (tasks w) (log w))) !! r = Some true) as Hpar.
  { intros h Hh. destruct (truthy_opt parent); [|done].
    destruct (_ !! default "" parent); [|done].
    simpl. by rewrite lookup_alter_system. }
  intros Hx.
  assert (system <$> alter (set_parent_id parent) actor
                       (alter (set_system true) actor (heap w)) !! r
          = Some true) as Hr.
  { rewrite lookup_alter_system by done.
    destruct (decide (x = actor_id a)) as [->|Hne].
    - assert (r = actor) as ->.
      { destruct (truthy_opt parent); [|simpl in Hx];
          [destruct (_ !! default "" parent); simpl in Hx|];
          rewrite lookup_insert_eq in Hx; congruence. }
      by rewrite lookup_alter_eq, Ha.
    - assert (actors w !! x = Some r) as Hwx.
      { destruct (truthy_opt parent); [|simpl in Hx];
          [destruct (_ !! default "" parent); simpl in Hx|];
          rewrite lookup_insert_ne in Hx; congruence. }
      specialize (Hatt x r Hwx). simpl in Hatt.
      destruct (decide (actor = r)) as [->|Hne'].
      + by rewrite lookup_alter_eq, Ha.
      + by rewrite lookup_alter_ne. }
  specialize (Hpar _ Hr).
  destruct (truthy_opt parent); [|exact Hpar].
  destruct (_ !! default "" parent); exact Hpar.
Qed.

(** [send] changes mailboxes only. *)
Lemma send_attached (w : World) (message : ActorMessage) :
  attached w → attached (send w message).
Proof.
  intros Hatt x r. rewrite send_actors. intros Hx.
  specialize (Hatt x r Hx). simpl in *. unfold send.
  destruct (actors w !! recipient message); [|done].
  simpl. by rewrite lookup_alter_system.
Qed.

(** ** The concrete handlers *)

(** The fields of a reply that do not depend on the result. *)
Lemma reply_message_fields (a : Actor) (message : ActorMessage)
    (result : PyVal) (uuid : string) (utcnow : Z) :
  let reply := reply_message a message result uuid utcnow in
  message_type reply = KEnum RESPONSE
  ∧ correlation_id reply = correlation_id message
  ∧ recipient reply = default "" (reply_to message)
  ∧ sender reply = Some (actor_id a)
  ∧ payload reply = result.
Proof. cbv zeta. by repeat split. Qed.

(** C3.  The scenario of the specification, run on the code.  The request
    has id ["m1"] and [reply_to = "caller"] and, as every caller in the
    repository builds it, no [correlation_id].  The command handler runs
    [echo hi] and the caller finds one reply in its mailbox: it has kind
    [RESPONSE], and its [correlation_id] is [None], the request's
    [correlation_id], where the request's id ["m1"] is expected.  The
    web-search handler does the same with a search request.  The sub-agent,
    the third handler that answers requests, given a request with the same
    id and reply address, sends a reply whose [correlation_id] is
    ["m1"]. *)
Theorem reply_does_not_carry_request_id :
  (∃ w' reply,
     CommandActor_receive always_safe echo "0000000a" 1 A_and_caller 0
       request_m1 = (w', None)
     ∧ mailbox <$> heap w' !! 1 = Some [reply]
     ∧ message_type reply = KEnum RESPONSE
     ∧ id request_m1 = "m1"
     ∧ correlation_id reply = None
     ∧ correlation_id reply ≠ Some (id request_m1))
  ∧ (∃ w' reply,
       WebSearchActor_receive no_results "0000000a" 1 A_and_caller 0
         search_m1 = (w', None)
       ∧ mailbox <$> heap w' !! 1 = Some [reply]
       ∧ message_type reply = KEnum RESPONSE
       ∧ id search_m1 = "m1"
       ∧ correlation_id reply = None
       ∧ correlation_id reply ≠ Some (id search_m1))
  ∧ (∃ w' reply,
       SubAgent_receive answer str_of slice_of "You are a helpful assistant."
         "0000000a" 1 A_and_caller 0 delegate_m1 = (w', None)
       ∧ mailbox <$> heap w' !! 1 = Some [reply]
       ∧ message_type reply = KEnum RESPONSE
       ∧ id delegate_m1 = "m1"
       ∧ correlation_id delegate_m1 = None
       ∧ correlation_id reply = Some (id delegate_m1)).
Proof.
  split; [|split].
  - eexists _, _. split; [by vm_compute|]. split; [by vm_compute|].
    by repeat split.
  - eexists _, _. split; [by vm_compute|]. split; [by vm_compute|].
    by repeat split.
  - eexists _, _. split; [by vm_compute|]. split; [by vm_compute|].
    by repeat split.
Qed.

Section handlers.
Context (is_safe : string → bool * string)
        (execute : string → Result ExecResult)
        (search : string → Result PyVal).
Context (uuid : string) (utcnow : Z).
Context (w : World) (self : loc) (a : Actor) (message : ActorMessage).
Hypothesis Hself : heap w !! self = Some a.
Hypothesis Hsystem : system a = true.
Hypothesis Hreply : truthy_opt (reply_to message) = true.

(** With a reply address, the command handler either lets an exception of
    the executor that is no [Exception] pass, or sends one reply. *)
Lemma handle_execute_command_replies (command : string) (t : Z) :
  payload message = VExecuteCommand command t →
  (∃ e, _handle_execute_command is_safe execute uuid utcnow w self message
        = (w, Some e)
        ∧ execute command = Err e ∧ is_Exception e = false)
  ∨ (∃ result,
       _handle_execute_command is_safe execute uuid utcnow w self message
       = (send w (reply_message a message result uuid utcnow), None)).
Proof using Hself Hsystem Hreply.
  intros Hp. unfold _handle_execute_command, tell.
  rewrite Hself, Hp, Hreply, Hsystem.
  destruct (is_safe command) as [[] reason]; simpl; [|by right; eexists].
  destruct (execute command) as [rd|e]; [by right; eexists|].
  destruct (is_Exception e) eqn:He; [by right; eexists|].
  left. by exists e.
Qed.

Lemma handle_web_search_replies (query : string) (n : Z) :
  payload message = VWebSearchQuery query n →
  (∃ e, _handle_web_search search uuid utcnow w self message = (w, Some e)
        ∧ search query = Err e ∧ is_Exception e = false)
  ∨ (∃ result,
       _handle_web_search search uuid utcnow w self message
       = (send w (reply_message a message result uuid utcnow), None)).
Proof using Hself Hsystem Hreply.
  intros Hp. unfold _handle_web_search, tell.
  rewrite Hself, Hp, Hreply, Hsystem.
  destruct (search query) as [rd|e]; [by right; eexists|].
  destruct (is_Exception e) eqn:He; [by right; eexists|].
  left. by exists e.
Qed.
End handlers.

(** What the two handlers do on every request.  A handler attached to the
    system processes a request of its kind, with a payload of its shape and [reply_to] set.
    Unless the collaborator raises something that is no [Exception], the
    handler returns normally having sent, with [send], exactly one
    envelope: its kind is [RESPONSE], it is addressed to [reply_to], its
    sender is the handler's actor, and its [correlation_id] is the
    [correlation_id] of the request (the request's [id] is not copied
    anywhere). *)
Lemma reply_echoes_correlation_id
    (is_safe : string → bool * string) (execute : string → Result ExecResult)
    (search : string → Result PyVal) (uuid : string) (utcnow : Z)
    (w : World) (self : loc) (a : Actor) (message : ActorMessage)
    (to : string) :
  heap w !! self = Some a →
  system a = true →
  reply_to message = Some to →
  truthy to = true →
  (∀ command t,
     message_type message = KEnum EXECUTE_COMMAND →
     payload message = VExecuteCommand command t →
     (∀ e, execute command = Err e → is_Exception e = true) →
     ∃ reply,
       CommandActor_receive is_safe execute uuid utcnow w self message
       = (send w reply, None)
       ∧ message_type reply = KEnum RESPONSE
       ∧ correlation_id reply = correlation_id message
       ∧ recipient reply = to
       ∧ sender reply = Some (actor_id a))
  ∧ (∀ query n,
       message_type message = KEnum WEB_SEARCH →
       payload message = VWebSearchQuery query n →
       (∀ e, search query = Err e → is_Exception e = true) →
       ∃ reply,
         WebSearchActor_receive search uuid utcnow w self message
         = (send w reply, None)
         ∧ message_type reply = KEnum RESPONSE
         ∧ correlation_id reply = correlation_id message
         ∧ recipient reply = to
         ∧ sender reply = Some (actor_id a)).
Proof.
  intros Hself Hsys Hto Htruthy.
  assert (truthy_opt (reply_to message) = true) as Hreply by by rewrite Hto.
  split.
  - intros command t Hk Hp Hexc. unfold CommandActor_receive. rewrite Hk.
    simpl.
    destruct (handle_execute_command_replies is_safe execute uuid utcnow
                w self a message Hself Hsys Hreply command t Hp)
      as [(e & _ & He & Hne)|(result & ->)].
    + apply Hexc in He. congruence.
    + eexists. split; [done|]. simpl. by rewrite Hto.
  - intros query n Hk Hp Hexc. unfold WebSearchActor_receive. rewrite Hk.
    simpl.
    destruct (handle_web_search_replies search uuid utcnow
                w self a message Hself Hsys Hreply query n Hp)
      as [(e & _ & He & Hne)|(result & ->)].
    + apply Hexc in He. congruence.
    + eexists. split; [done|]. simpl. by rewrite Hto.
Qed.

Lemma reply_echoes_correlation_id_witness :
  (∀ command t,
     message_type request_m1 = KEnum EXECUTE_COMMAND →
     payload request_m1 = VExecuteCommand command t →
     (∀ e, echo command = Err e → is_Exception e = true) →
     ∃ reply,
       CommandActor_receive always_safe echo "0000000a" 1 A_and_caller 0
         request_m1
       = (send A_and_caller reply, None)
       ∧ message_type reply = KEnum RESPONSE
       ∧ correlation_id reply = correlation_id request_m1
       ∧ recipient reply = "caller"
       ∧ sender reply = Some "A")
  ∧ (∀ query n,
       message_type request_m1 = KEnum WEB_SEARCH →
       payload request_m1 = VWebSearchQuery query n →
       (∀ e, no_results query = Err e → is_Exception e = true) →
       ∃ reply,
         WebSearchActor_receive no_results "0000000a" 1 A_and_caller 0
           request_m1
         = (send A_and_caller reply, None)
         ∧ message_type reply = KEnum RESPONSE
         ∧ correlation_id reply = correlation_id request_m1
         ∧ recipient reply = "caller"
         ∧ sender reply = Some "A").
Proof.
  apply (reply_echoes_correlation_id always_safe echo no_results
           "0000000a" 1 A_and_caller 0
           (set_state RUNNING
              (set_running true
                 (set_system true (Actor_init (Some "A") "00000001"))))
           request_m1 "caller").
  - by vm_compute.
  - reflexivity.
  - reflexivity.
  - reflexivity.
Defined.

(** ** The dispatch loop *)

(** What one turn of the loop does when [receive] raises an [Exception]
    that is no [TimeoutError]: the loop goes on, having run
    [_handle_error]. *)
Lemma run_iter_handler_raises (receive : Handler) (w w' : World) (self : loc)
    (a : Actor) (message : ActorMessage) (rest : list ActorMessage)
    (e : PyExc) (uuid : string) (utcnow : Z) :
  heap w !! self = Some a →
  _running a = true →
  mailbox a = message :: rest →
  receive (update self (set_mailbox rest) w) self message = (w', Some e) →
  is_TimeoutError e = false →
  is_Exception e = true →
  _run_iter receive w self uuid utcnow
  = (_handle_error w' self e uuid utcnow, Looping).
Proof.
  intros Ha Hrun Hmb Hrecv Ht He. unfold _run_iter, get.
  by rewrite Ha, Hrun, Hmb, Hrecv, Ht, He.
Qed.

(** What [_handle_error] does for an actor attached to the system whose
    parent is registered: the actor's state becomes [ERROR], its other
    attributes stay (it is still running, its mailbox is untouched), and the
    parent's mailbox grows by the child-failed envelope, whose payload
    carries the actor's identity and [str(error)]. *)
Lemma handle_error_notifies_parent (w : World) (self parent : loc)
    (a pa : Actor) (p : string) (e : PyExc) (uuid : string) (utcnow : Z) :
  heap w !! self = Some a →
  parent_id a = Some p →
  truthy p = true →
  system a = true →
  actors w !! p = Some parent →
  heap w !! parent = Some pa →
  parent ≠ self →
  let w' := _handle_error w self e uuid utcnow in
  heap w' !! self = Some (set_state ERROR a)
  ∧ heap w' !! parent
    = Some (set_mailbox (mailbox pa ++ [error_message a e uuid utcnow]) pa)
  ∧ payload (error_message a e uuid utcnow)
    = VDict [("actor_id", VStr (actor_id a)); ("error", VStr (exc_str e))]
  ∧ recipient (error_message a e uuid utcnow) = p
  ∧ actors w' = actors w.
Proof.
  intros Ha Hp Htr Hsys Hreg Hpa Hne. cbv zeta. unfold _handle_error.
  rewrite Ha, Hsys. unfold send, error_message. rewrite Hp. simpl.
  rewrite Htr. simpl. rewrite Hreg. simpl.
  rewrite lookup_alter_ne, lookup_alter_eq, Ha by done.
  by rewrite lookup_alter_eq, lookup_alter_ne, Hpa by done.
Qed.

(** A turn of a running actor with a non-empty mailbox takes the head and
    hands it to [receive], whatever state the previous turn left; the three
    [except] outcomes follow. *)
Lemma run_iter_takes_head (receive : Handler) (w : World) (self : loc)
    (a : Actor) (message : ActorMessage) (rest : list ActorMessage)
    (uuid : string) (utcnow : Z) :
  heap w !! self = Some a →
  _running a = true →
  mailbox a = message :: rest →
  _run_iter receive w self uuid utcnow
  = match receive (update self (set_mailbox rest) w) self message with
    | (w', None) => (w', Looping)
    | (w', Some e) =>
        if is_TimeoutError e then (w', Looping)
        else if is_Exception e then
          (_handle_error w' self e uuid utcnow, Looping)
        else (w', Crashed e)
    end.
Proof.
  intros Ha Hrun Hmb. unfold _run_iter, get. by rewrite Ha, Hrun, Hmb.
Qed.

(** A handler failure that is no timeout, on the example: the child goes to
    [ERROR], the parent receives the child-failed envelope, and the second
    turn hands ["good"] to the handler, leaving the mailbox empty. *)
Lemma handler_failure_is_contained :
  let boom := mkExc OtherException "malformed payload" in
  let '(w1, s1) := _run_iter (raising boom) P_and_C 1 "0000000e" 7 in
  let '(w2, s2) := _run_iter (raising boom) w1 1 "0000000f" 8 in
  s1 = Looping
  ∧ state <$> heap w1 !! 1 = Some ERROR
  ∧ _running <$> heap w1 !! 1 = Some true
  ∧ mailbox <$> heap w1 !! 0
    = Some [error_message
              (set_parent_id (Some "P") (Actor_init (Some "C") ""))
              boom "0000000e" 7]
  ∧ mailbox <$> heap w1 !! 1 = Some [envelope "good" "P" "C"]
  ∧ s2 = Looping
  ∧ mailbox <$> heap w2 !! 1 = Some [].
Proof. by vm_compute. Qed.

(** C4, the failing input: the handler raises [asyncio.TimeoutError] while
    processing ["bad"] (what an [ask] or a [wait_for] inside a handler
    does).  The first [except] clause of [_run], written for the empty
    mailbox, takes it: the actor stays [RUNNING], nothing is logged, and
    the parent's mailbox stays empty: no child-failed envelope.  The loop
    does go on: the next turn handles ["good"]. *)
Theorem handler_timeout_is_swallowed :
  let timeout := mkExc TimeoutError "" in
  let '(w1, s1) := _run_iter (raising timeout) P_and_C 1 "0000000e" 7 in
  let '(w2, s2) := _run_iter (raising timeout) w1 1 "0000000f" 8 in
  raising timeout (update 1 (set_mailbox [envelope "good" "P" "C"]) P_and_C)
    1 (envelope "bad" "P" "C")
  = (update 1 (set_mailbox [envelope "good" "P" "C"]) P_and_C, Some timeout)
  ∧ parent_id <$> heap P_and_C !! 1 = Some (Some "P")
  ∧ actors P_and_C !! "P" = Some 0
  ∧ s1 = Looping
  ∧ state <$> heap w1 !! 1 = Some RUNNING
  ∧ mailbox <$> heap w1 !! 0 = Some []
  ∧ log w1 = log P_and_C
  ∧ s2 = Looping
  ∧ mailbox <$> heap w2 !! 1 = Some [].
Proof. by vm_compute. Qed.

(** The same with a handler that gets its [TimeoutError] from the runtime
    itself, by awaiting [self.ask]: the parent's mailbox holds the question
    only, the log holds [ask_timeout] only, and the child is [RUNNING]. *)
Lemma handler_ask_timeout_is_swallowed :
  let '(w1, s1) := _run_iter asking P_and_C 1 "0000000e" 7 in
  s1 = Looping
  ∧ state <$> heap w1 !! 1 = Some RUNNING
  ∧ mailbox <$> heap w1 !! 0 = Some [envelope "question" "C" "P"]
  ∧ event <$> log w1 = (event <$> log P_and_C) ++ ["ask_timeout"].
Proof. by vm_compute. Qed.

(** ** [ask] *)

(** Whatever happens while the caller waits, [ask] never returns an
    envelope: attached to the system it raises [TimeoutError], otherwise
    [RuntimeError]. *)
Lemma ask_always_raises (w : World) (self : loc) (message : ActorMessage)
    (timeout : Z) (during : World → World) :
  ∃ e, (ask w self message timeout during).2 = Err e
       ∧ (∀ a, heap w !! self = Some a → system a = true →
            exc_type e = TimeoutError).
Proof.
  unfold ask. destruct (heap w !! self) as [a|] eqn:Ha.
  - destruct (system a) eqn:Hs.
    + eexists. split; [done|]. intros ? [= <-] _. done.
    + eexists. split; [done|]. intros ? [= <-]. congruence.
  - eexists. split; [done|]. intros ? [=].
Qed.

(** C2, the failing input: the caller asks ["A"] with [request_m1]
    ([reply_to] is the caller), and while it waits, a reply addressed to the
    caller whose [correlation_id] is the request's id is sent.  [ask] still
    raises [TimeoutError]; the reply lies in the caller's mailbox, where the
    caller's own [receive] will find it. *)
Theorem ask_times_out_despite_reply :
  let r := ask A_and_caller 1 request_m1 30 (λ w, send w reply_m1) in
  correlation_id reply_m1 = Some (id request_m1)
  ∧ actors A_and_caller !! recipient reply_m1 = Some 1
  ∧ r.2 = Err (mkExc TimeoutError "")
  ∧ mailbox <$> heap r.1 !! 1 = Some [reply_m1]
  ∧ mailbox <$> heap r.1 !! 0 = Some [request_m1].
Proof. by vm_compute. Qed.

(** ** Mailbox order *)

Lemma get_actors (w : World) (self : loc) : actors (get w self).1 = actors w.
Proof.
  unfold get. destruct (heap w !! self) as [a|]; [|done].
  by destruct (mailbox a).
Qed.

(** Along any interleaving of sends and takes, what an actor has received
    so far followed by what its mailbox still holds is what the mailbox held
    at the start followed by the envelopes sent to it, in the order of the
    sends. *)
Lemma run_fifo (events : list Event) (w : World) (self : loc) (a : Actor) :
  heap w !! self = Some a →
  ∃ a', heap (run w events).1 !! self = Some a'
        ∧ received_by self (run w events).2 ++ mailbox a'
          = mailbox a ++ sent_to (actors w) self events.
Proof.
  revert w a. induction events as [|[message|r] events IH]; intros w a Ha.
  - exists a. simpl. by rewrite app_nil_r.
  - simpl. case_decide as Hreg.
    + edestruct (IH (send w message)) as (a' & Ha' & Heq).
      { rewrite (send_present _ _ self Hreg). simpl.
        by rewrite lookup_alter_eq, Ha. }
      exists a'. split; [done|]. rewrite Heq, send_actors. simpl.
      by rewrite <- app_assoc.
    + edestruct (IH (send w message) a) as (a' & Ha' & Heq).
      { unfold send. destruct (actors w !! recipient message) as [r'|] eqn:Hr;
          [|done].
        simpl. rewrite lookup_alter_ne; [done|congruence]. }
      exists a'. split; [done|]. by rewrite Heq, send_actors.
  - simpl. unfold get.
    destruct (heap w !! r) as [ar|] eqn:Har; [|by apply IH].
    destruct (mailbox ar) as [|message rest] eqn:Hmb; [by apply IH|].
    destruct (decide (r = self)) as [->|Hne].
    + assert (ar = a) as -> by congruence.
      edestruct (IH (update self (set_mailbox rest) w)) as (a' & Ha' & Heq).
      { simpl. by rewrite lookup_alter_eq, Ha. }
      destruct (run (update self (set_mailbox rest) w) events)
        as [w'' tr] eqn:Hrun.
      exists a'. split; [done|]. simpl in *.
      unfold received_by in *. rewrite filter_cons_True by done.
      rewrite fmap_cons, Hmb, <- !app_comm_cons. f_equal. exact Heq.
    + edestruct (IH (update r (set_mailbox rest) w) a) as (a' & Ha' & Heq).
      { simpl. by rewrite lookup_alter_ne. }
      destruct (run (update r (set_mailbox rest) w) events)
        as [w'' tr] eqn:Hrun.
      exists a'. split; [done|]. simpl in *.
      unfold received_by in *. by rewrite filter_cons_False.
Qed.

(** A run in two parts. *)
Lemma run_app (events1 events2 : list Event) (w : World) :
  run w (events1 ++ events2)
  = ((run (run w events1).1 events2).1,
     (run w events1).2 ++ (run (run w events1).1 events2).2).
Proof.
  revert w. induction events1 as [|[message|r] events1 IH]; intros w; simpl.
  - by destruct (run w events2).
  - apply IH.
  - destruct (get w r) as [w' [message|]]; [|apply IH].
    rewrite IH. by destruct (run w' events1).
Qed.

Lemma received_by_app (self : loc) (t1 t2 : list (loc * ActorMessage)) :
  received_by self (t1 ++ t2) = received_by self t1 ++ received_by self t2.
Proof. unfold received_by. by rewrite filter_app, fmap_app. Qed.

(** As many takes as the mailbox holds envelopes: the loop is handed all of
    them, from the head on, and the mailbox is empty afterwards. *)
Lemma run_gets (w : World) (self : loc) (a : Actor) :
  heap w !! self = Some a →
  received_by self (run w (replicate (length (mailbox a)) (Get self))).2
  = mailbox a
  ∧ mailbox <$> heap (run w (replicate (length (mailbox a)) (Get self))).1
                  !! self = Some [].
Proof.
  remember (mailbox a) as mb eqn:Hmb. revert w a Hmb.
  induction mb as [|message rest IH]; intros w a Hmb Ha; simpl.
  - rewrite Ha. simpl. by rewrite <- Hmb.
  - unfold get. rewrite Ha, <- Hmb.
    destruct (IH (update self (set_mailbox rest) w) (set_mailbox rest a))
      as [Hrec Hemp]; [done|simpl; by rewrite lookup_alter_eq, Ha|].
    destruct (run (update self (set_mailbox rest) w)
                (replicate (length rest) (Get self))) as [w'' tr].
    simpl in *. split; [|done].
    unfold received_by in *. rewrite filter_cons_True by done.
    by rewrite fmap_cons, Hrec.
Qed.

(** C6.  Take any world, any actor [B] in it and any interleaving of sends
    (from whatever senders, to whatever recipients) and takes.

    [put] never blocks and never drops: a send to an identity registered
    for [B] returns with the envelope appended to [B]'s mailbox.

    A take delivers: on a mailbox that is not empty, [get] returns its head
    and leaves the rest, and a turn of [B]'s running loop passes that head
    to [B]'s handler, whatever the handler.

    The queue is FIFO: what [B]'s handler received followed by what is
    still queued is exactly what was queued before followed by what was
    sent to [B], in sending order, and the same holds of the envelopes of
    every single sender [A], whatever was sent in between.

    And nothing is lost on the way: once [B]'s loop has taken as many more
    envelopes as are still queued, [B]'s handler has received everything
    that was queued or sent to [B], in that order (for every sender [A],
    the envelopes of [A] in the order [A] sent them), and the mailbox is
    empty. *)
Theorem mailbox_is_fifo (w : World) (events : list Event) (B : loc)
    (b : Actor) :
  heap w !! B = Some b →
  (∀ m, actors w !! recipient m = Some B →
        heap (send w m) !! B = Some (set_mailbox (mailbox b ++ [m]) b))
  ∧ (∀ m rest, mailbox b = m :: rest →
       get w B = (update B (set_mailbox rest) w, Some m)
       ∧ ∀ receive uuid utcnow, _running b = true →
           _run_iter receive w B uuid utcnow
           = match receive (update B (set_mailbox rest) w) B m with
             | (w', None) => (w', Looping)
             | (w', Some e) =>
                 if is_TimeoutError e then (w', Looping)
                 else if is_Exception e
                      then (_handle_error w' B e uuid utcnow, Looping)
                      else (w', Crashed e)
             end)
  ∧ ∃ b', heap (run w events).1 !! B = Some b'
      ∧ received_by B (run w events).2 ++ mailbox b'
        = mailbox b ++ sent_to (actors w) B events
      ∧ (∀ A : string,
          let from_A := filter (λ m, sender m = Some A) in
          from_A (received_by B (run w events).2) ++ from_A (mailbox b')
          = from_A (mailbox b) ++ from_A (sent_to (actors w) B events))
      ∧ let drained :=
          run w (events ++ replicate (length (mailbox b')) (Get B)) in
        received_by B drained.2 = mailbox b ++ sent_to (actors w) B events
        ∧ mailbox <$> heap drained.1 !! B = Some []
        ∧ ∀ A : string,
            let from_A := filter (λ m, sender m = Some A) in
            from_A (received_by B drained.2)
            = from_A (mailbox b) ++ from_A (sent_to (actors w) B events).
Proof.
  intros Hb. split; [|split].
  - intros m Hm. rewrite (send_present _ _ B Hm). simpl.
    by rewrite lookup_alter_eq, Hb.
  - intros m rest Hmb. split.
    + unfold get. by rewrite Hb, Hmb.
    + intros receive uuid utcnow Hrun.
      by apply (run_iter_takes_head receive w B b m rest).
  - destruct (run_fifo events w B b Hb) as (b' & Hb' & Heq).
    exists b'. split; [done|]. split; [done|]. split.
    { intros A. cbv zeta. by rewrite <- !filter_app, Heq. }
    cbv zeta. rewrite run_app. simpl.
    destruct (run_gets (run w events).1 B b' Hb') as [Hrec Hemp].
    rewrite received_by_app, Hrec, Heq. split; [done|]. split; [done|].
    intros A. by rewrite filter_app.
Qed.

(** The child ["C"] of [P_and_C] holds ["bad"] and ["good"] from ["P"];
    ["X"] and ["P"] send more while the child's loop takes envelopes. *)
Lemma mailbox_is_fifo_witness :
  let events :=
    [Send (envelope "x1" "X" "C"); Get 1; Send (envelope "p3" "P" "C");
     Send (envelope "p4" "P" "P"); Get 1; Get 1; Get 0;
     Send (envelope "x2" "X" "C"); Send (envelope "p5" "P" "C"); Get 1] in
  let b := set_mailbox [envelope "bad" "P" "C"; envelope "good" "P" "C"]
             (set_state RUNNING
                (set_running true
                   (set_parent_id (Some "P")
                      (set_system true (Actor_init (Some "C") ""))))) in
  (∀ m, actors P_and_C !! recipient m = Some 1 →
        heap (send P_and_C m) !! 1
        = Some (set_mailbox (mailbox b ++ [m]) b))
  ∧ (∀ m rest, mailbox b = m :: rest →
       get P_and_C 1 = (update 1 (set_mailbox rest) P_and_C, Some m)
       ∧ ∀ receive uuid utcnow, _running b = true →
           _run_iter receive P_and_C 1 uuid utcnow
           = match receive (update 1 (set_mailbox rest) P_and_C) 1 m with
             | (w', None) => (w', Looping)
             | (w', Some e) =>
                 if is_TimeoutError e then (w', Looping)
                 else if is_Exception e
                      then (_handle_error w' 1 e uuid utcnow, Looping)
                      else (w', Crashed e)
             end)
  ∧ ∃ b', heap (run P_and_C events).1 !! 1 = Some b'
      ∧ received_by 1 (run P_and_C events).2 ++ mailbox b'
        = mailbox b ++ sent_to (actors P_and_C) 1 events
      ∧ (∀ A : string,
          let from_A := filter (λ m, sender m = Some A) in
          from_A (received_by 1 (run P_and_C events).2)
          ++ from_A (mailbox b')
          = from_A (mailbox b) ++ from_A (sent_to (actors P_and_C) 1 events))
      ∧ let drained :=
          run P_and_C (events ++ replicate (length (mailbox b')) (Get 1)) in
        received_by 1 drained.2
        = mailbox b ++ sent_to (actors P_and_C) 1 events
        ∧ mailbox <$> heap drained.1 !! 1 = Some []
        ∧ ∀ A : string,
            let from_A := filter (λ m, sender m = Some A) in
            from_A (received_by 1 drained.2)
            = from_A (mailbox b)
              ++ from_A (sent_to (actors P_and_C) 1 events).
Proof.
  cbv zeta. apply (mailbox_is_fifo P_and_C _ 1). by vm_compute.
Defined.

(** On that example: the child's handler received ["bad"], ["good"], ["x1"]
    and ["p3"], in this order, and ["x2"] and ["p5"] wait in the mailbox. *)
Lemma run_example :
  let events :=
    [Send (envelope "x1" "X" "C"); Get 1; Send (envelope "p3" "P" "C");
     Send (envelope "p4" "P" "P"); Get 1; Get 1; Get 0;
     Send (envelope "x2" "X" "C"); Send (envelope "p5" "P" "C"); Get 1] in
  id <$> received_by 1 (run P_and_C events).2 = ["bad"; "good"; "x1"; "p3"]
  ∧ (fmap id ∘ mailbox) <$> heap (run P_and_C events).1 !! 1
    = Some ["x2"; "p5"].
Proof. by vm_compute. Qed.

(** The same run followed by the two takes that empty the mailbox: the
    child's handler has received all six envelopes, those of ["P"] in the
    order ["bad"], ["good"], ["p3"], ["p5"] and those of ["X"] in the order
    ["x1"], ["x2"]. *)
Lemma run_example_drained :
  let events :=
    [Send (envelope "x1" "X" "C"); Get 1; Send (envelope "p3" "P" "C");
     Send (envelope "p4" "P" "P"); Get 1; Get 1; Get 0;
     Send (envelope "x2" "X" "C"); Send (envelope "p5" "P" "C"); Get 1;
     Get 1; Get 1] in
  id <$> received_by 1 (run P_and_C events).2
  = ["bad"; "good"; "x1"; "p3"; "x2"; "p5"]
  ∧ id <$> filter (λ m, sender m = Some "P")
             (received_by 1 (run P_and_C events).2)
    = ["bad"; "good"; "p3"; "p5"]
  ∧ (fmap id ∘ mailbox) <$> heap (run P_and_C events).1 !! 1 = Some [].
Proof. by vm_compute. Qed.

(** ** [stop] *)

(** Stopping an identity that is not registered changes nothing, at any
    depth that allows the call itself. *)
Lemma stop_unknown (listing : gset string → list string) (depth : nat)
    (w : World) (i : string) :
  actors w !! i = None → stop listing (S depth) w i = Ok w.
Proof. intros H. simpl. by rewrite H. Qed.

(** An actor whose only recorded child is itself cannot be stopped: the
    call for the actor calls itself for the child, without end. *)
Lemma stop_own_child (listing : gset string → list string) (i : string)
    (depth : nat) :
  lists_sets listing →
  ∀ (w : World) (r : loc) (a : Actor),
    actors w !! i = Some r →
    heap w !! r = Some a →
    system a = true →
    children a = {[i]} →
    stop listing depth w i = Err recursion_error.
Proof.
  intros Hl. assert (∃ rest, listing {[i]} = i :: rest) as [rest Hlist].
  { destruct (listing {[i]}) as [|c rest] eqn:E.
    - assert (i ∈ listing {[i]}) as Hin by (apply Hl; by apply elem_of_singleton).
      rewrite E in Hin. by apply elem_of_nil in Hin.
    - exists rest. f_equal.
      assert (c ∈ listing {[i]}) as Hin by (rewrite E; by left).
      apply Hl in Hin. by apply elem_of_singleton in Hin. }
  induction depth as [|depth IH]; intros w r a Hi Ha Hs Hc; [done|].
  simpl. rewrite Hi. unfold Actor_stop. simpl.
  rewrite lookup_alter_eq, Ha. simpl. rewrite Hc, Hlist.
  simpl. unfold stop_child at 1. simpl. rewrite lookup_alter_eq, Ha. simpl.
  rewrite Hs.
  rewrite (IH (update r (set_running false) w) r (set_running false a));
    [done|done| |done|done].
  simpl. by rewrite lookup_alter_eq, Ha.
Qed.

(** C5, an actor that was spawned with itself as parent
    ([spawn(actor, parent_id=actor.actor_id)]): it is registered, it is its
    own recorded child, and [stop] returns at no depth; it raises
    [RecursionError] and the actor stays registered. *)
Lemma stop_own_parent_never_returns :
  actors own_parent !! "A" = Some 0
  ∧ child own_parent "A" "A"
  ∧ ∀ listing depth,
      lists_sets listing →
      stop listing depth own_parent "A" = Err recursion_error.
Proof.
  split; [by vm_compute|]. split.
  - exists 0, (set_children {["A"]}
                 (set_parent_id (Some "A")
                    (set_system true (Actor_init (Some "A") "00000001")))).
    split; [by vm_compute|]. split; [by vm_compute|]. simpl. set_solver.
  - intros listing depth Hl.
    apply (stop_own_child listing "A" depth Hl own_parent 0
             (set_children {["A"]}
                (set_parent_id (Some "A")
                   (set_system true (Actor_init (Some "A") "00000001")))));
      by vm_compute.
Qed.

(** *** What a cascade leaves *)

Lemma same_but_stopped_refl (a : Actor) : same_but_stopped a a.
Proof. by repeat split. Qed.

Lemma same_but_stopped_trans (a b c : Actor) :
  same_but_stopped a b → same_but_stopped b c → same_but_stopped a c.
Proof.
  intros (?&?&?&?&?&?&?) (?&?&?&?&?&?&?).
  repeat split; try congruence; [set_solver|auto].
Qed.

Lemma frame_refl (w : World) : frame w w.
Proof.
  split; [|done]. intros r a Ha. exists a.
  split; [done|]. split; [apply same_but_stopped_refl|done].
Qed.

Lemma frame_gone (w w' : World) (x : string) :
  frame w w' → actors w !! x = None → actors w' !! x = None.
Proof.
  intros (_ & _ & Hsub) Hx. destruct (actors w' !! x) as [r|] eqn:E; [|done].
  apply Hsub in E. congruence.
Qed.

Lemma frame_trans (w1 w2 w3 : World) :
  frame w1 w2 → frame w2 w3 → frame w1 w3.
Proof.
  intros F12 F23. pose proof F12 as (H12 & D12 & S12).
  pose proof F23 as (H23 & D23 & S23). split; [|split].
  - intros r a Ha. destruct (H12 r a Ha) as (a' & Ha' & Hs' & Hd').
    destruct (H23 r a' Ha') as (a'' & Ha'' & Hs'' & Hd'').
    exists a''. split; [done|].
    split; [by eapply same_but_stopped_trans|].
    intros c Hc Hnc. destruct (decide (c ∈ children a')) as [Hin|Hout].
    + by apply Hd''.
    + eapply frame_gone; [done|]. by apply Hd'.
  - auto.
  - auto.
Qed.

Lemma closed_refl (w : World) : closed w w.
Proof. intros x r Hx Hn. congruence. Qed.

Lemma closed_trans (w1 w2 w3 : World) :
  frame w1 w2 → frame w2 w3 → closed w1 w2 → closed w2 w3 → closed w1 w3.
Proof.
  intros F12 F23 C12 C23 x r Hx Hn.
  pose proof F12 as (H12 & _ & S12). pose proof F23 as (H23 & _ & S23).
  destruct (actors w2 !! x) as [r'|] eqn:Hx2.
  - assert (r' = r) as -> by (apply S12 in Hx2; congruence).
    destruct (C23 x r Hx2 Hn) as [Hrun Hch]. split; [done|].
    intros a c Ha Hc. destruct (H12 r a Ha) as (a' & Ha' & _ & Hd').
    destruct (decide (c ∈ children a')) as [Hin|Hout].
    + by eapply Hch.
    + eapply frame_gone; [done|]. by apply Hd'.
  - destruct (C12 x r Hx Hx2) as [(a' & Ha' & Hrun) Hch]. split.
    + destruct (H23 r a' Ha') as (a'' & Ha'' & Hs'' & _).
      exists a''. split; [done|]. by apply Hs''.
    + intros a c Ha Hc. eapply frame_gone; [done|]. by eapply Hch.
Qed.

Lemma child_frame (w w' : World) (x c : string) :
  frame w w' → child w' x c → child w x c.
Proof.
  intros (Hh & Hd & Hs) (r & a' & Hx & Ha' & Hc).
  destruct (heap w !! r) as [a|] eqn:Ha.
  - destruct (Hh r a Ha) as (a'' & Ha'' & Hsame & _).
    assert (a'' = a') as -> by congruence.
    exists r, a. split; [by apply Hs|]. split; [done|].
    destruct Hsame as (_&_&_&_&_&Hsub&_). set_solver.
  - apply Hd in Ha. congruence.
Qed.

Lemma descendant_frame (w w' : World) (x y : string) :
  frame w w' → descendant w' x y → descendant w x y.
Proof.
  intros F. apply rtc_subrel. intros ? ?. by apply child_frame.
Qed.

Lemma attached_frame (w w' : World) :
  attached w → frame w w' → attached w'.
Proof.
  intros Hatt (Hh & _ & Hs) x r Hx. apply Hs in Hx.
  specialize (Hatt x r Hx). simpl in Hatt.
  destruct (heap w !! r) as [a|] eqn:Ha; [|done].
  destruct (Hh r a Ha) as (a' & Ha' & (_&_&Hsys&_) & _).
  rewrite Ha'. simpl in *. congruence.
Qed.

Lemma ranked_frame (w w' : World) (rank : string → nat) (root c : string) :
  ranked w rank root → frame w w' → descendant w root c →
  ranked w' rank c.
Proof.
  intros Hr F Hc x y Hx Hy. apply Hr.
  - etrans; [done|]. by eapply descendant_frame.
  - by eapply child_frame.
Qed.

(** Below a ranked root the rank never exceeds the root's, and a proper
    descendant has a smaller one. *)
Lemma rank_descendant (w : World) (rank : string → nat) (root x : string) :
  ranked w rank root → descendant w root x → rank x ≤ rank root.
Proof.
  intros Hr Hx. unfold descendant in Hx. revert x Hx.
  apply (rtc_ind_r (λ x, rank x ≤ rank root)); [done|].
  intros y z Hy Hyz IH. specialize (Hr y z Hy Hyz). lia.
Qed.

Lemma well_ranked_ranked (w : World) (rank : string → nat) (root : string) :
  well_ranked w rank → ranked w rank root.
Proof.
  intros Hw x c _ (r & a & Hx & Ha & Hc).
  specialize (Hw x r Hx). unfold children_ranked in Hw.
  rewrite Ha in Hw. by apply Hw.
Qed.

(** *** The recursion, unfolded once *)

Lemma stop_unfold (listing : gset string → list string) (d : nat)
    (w : World) (i : string) (r : loc) :
  actors w !! i = Some r →
  stop listing (S d) w i
  = bind (Actor_stop listing (stop listing d) w r) (unregister i r).
Proof. intros Hi. simpl. by rewrite Hi. Qed.

Lemma Actor_stop_unfold (listing : gset string → list string)
    (system_stop : World → string → Result World) (w : World) (r : loc)
    (a : Actor) :
  heap w !! r = Some a →
  Actor_stop listing system_stop w r
  = foldM (stop_child system_stop r) (update r (set_running false) w)
      (listing (children a)).
Proof.
  intros Ha. unfold Actor_stop. simpl. by rewrite lookup_alter_eq, Ha.
Qed.

Lemma frame_set_running (w : World) (r : loc) :
  frame w (update r (set_running false) w).
Proof.
  split; [|split].
  - intros r0 a Ha. simpl. destruct (decide (r0 = r)) as [->|Hne].
    + rewrite lookup_alter_eq, Ha. eexists. split; [done|].
      split; [by repeat split|done].
    + rewrite lookup_alter_ne, Ha by done. exists a. split; [done|].
      split; [apply same_but_stopped_refl|done].
  - intros r0 Hn. simpl. by rewrite lookup_alter_None.
  - done.
Qed.

Lemma closed_same_registry (w w' : World) :
  actors w' = actors w → closed w w'.
Proof. intros E x r Hx Hn. congruence. Qed.

Lemma frame_delete (w : World) (i ev : string) (kw : list (string * PyVal)) :
  frame w (logger info ev kw (set_actors (delete i (actors w)) w)).
Proof.
  split; [|split].
  - intros r a Ha. exists a. split; [done|].
    split; [apply same_but_stopped_refl|done].
  - done.
  - intros x r. simpl. rewrite lookup_delete_Some. tauto.
Qed.

Lemma frame_discard_delete (w : World) (i ev : string) (parent : loc)
    (kw : list (string * PyVal)) :
  let w1 :=
    update parent (λ p, set_children (children p ∖ {[i]}) p) w in
  frame w (logger info ev kw (set_actors (delete i (actors w1)) w1)).
Proof.
  cbv zeta. split; [|split].
  - intros r a Ha. simpl. destruct (decide (r = parent)) as [->|Hne].
    + rewrite lookup_alter_eq, Ha. eexists. split; [done|]. split.
      * repeat split; simpl; try done. apply subseteq_difference_l. done.
      * intros c Hc Hnc. simpl in Hnc.
        destruct (decide (c = i)) as [->|Hne]; [apply lookup_delete_eq|].
        set_solver.
    + rewrite lookup_alter_ne, Ha by done. exists a. split; [done|].
      split; [apply same_but_stopped_refl|done].
  - intros r Hn. simpl. by rewrite lookup_alter_None.
  - intros x r. simpl. rewrite lookup_delete_Some. tauto.
Qed.

Section cascade.
Context (listing : gset string → list string).
Context (rank : string → nat) (d : nat).
Hypothesis IHd :
  ∀ w i, attached w → ranked w rank i → rank i < d →
    ∃ w', stop listing d w i = Ok w' ∧ stopped_from w i w'.

(** The loop of [Actor.stop] over the children [cs], from a world [w]
    reached from the world [wb] in which the loop started. *)
Lemma stop_children (self : loc) (wb : World) :
  attached wb →
  system <$> heap wb !! self = Some true →
  ∀ (cs done_ : list string) (w : World),
    (∀ c, c ∈ cs → rank c < d ∧ ranked wb rank c) →
    frame wb w → closed wb w →
    (∀ c, c ∈ done_ → actors w !! c = None) →
    only_below wb done_ w →
    ∃ w', foldM (stop_child (stop listing d) self) w cs = Ok w'
          ∧ frame wb w' ∧ closed wb w'
          ∧ (∀ c, c ∈ done_ ++ cs → actors w' !! c = None)
          ∧ only_below wb (done_ ++ cs) w'.
Proof using IHd.
  intros Hatt Hsys. induction cs as [|c cs IHcs];
    intros done_ w Hcs F C Hdone Hbelow.
  - exists w. rewrite app_nil_r. by split_and!.
  - assert (stop_child (stop listing d) self w c = stop listing d w c)
      as Hbody.
    { unfold stop_child. destruct (heap wb !! self) as [ab|] eqn:Hab; [|done].
      destruct F as (Hh & _ & _).
      destruct (Hh self ab Hab) as (a' & -> & (_&_&Hs&_) & _).
      simpl in Hsys. injection Hsys as Hsys. by rewrite Hs, Hsys. }
    destruct (Hcs c) as [Hrank Hranked]; [by left|].
    destruct (IHd w c) as (w1 & Hstop & F1 & C1 & Hgone & Hb1 & _).
    { by eapply attached_frame. }
    { by eapply ranked_frame. }
    { done. }
    destruct (IHcs (done_ ++ [c]) w1) as (w' & Hfold & F' & C' & Hd' & Hb').
    { intros c' Hc'. apply Hcs. by right. }
    { by eapply frame_trans. }
    { by eapply closed_trans. }
    { intros c' [Hc'|Hc']%elem_of_app.
      - eapply frame_gone; [done|]. by apply Hdone.
      - apply list_elem_of_singleton in Hc' as ->. done. }
    { intros x Hx Hn. destruct (actors w !! x) as [rx|] eqn:Hwx.
      - destruct (Hb1 x) as (c' & Hc' & Hdesc); [done|done|].
        apply list_elem_of_singleton in Hc' as ->.
        exists c. split; [apply elem_of_app; right; by left|].
        by eapply descendant_frame.
      - destruct (Hbelow x Hx Hwx) as (c' & Hc' & Hdesc).
        exists c'. split; [apply elem_of_app; by left|done]. }
    exists w'. simpl. rewrite Hbody, Hstop. simpl.
    rewrite <- app_assoc in Hd', Hb'. by split_and!.
Qed.
End cascade.

(** What [stop] leaves when the recorded children below [i] have no cycle:
    at any depth above the rank of [i] it returns, and the world it returns
    is a cascade from [i]. *)
Lemma stop_returns (listing : gset string → list string)
    (rank : string → nat) (d : nat) :
  lists_sets listing →
  ∀ (w : World) (i : string),
    attached w → ranked w rank i → rank i < d →
    ∃ w', stop listing d w i = Ok w' ∧ stopped_from w i w'.
Proof.
  intros Hl.
  induction d as [|d IHd]; intros w i Hatt Hranked Hrank; [lia|].
  destruct (actors w !! i) as [r|] eqn:Hi; last first.
  { exists w. split; [by apply stop_unknown|].
    split; [apply frame_refl|]. split; [apply closed_refl|].
    split; [done|]. split.
    - intros x Hx Hn. rewrite Hn in Hx. by destruct Hx.
    - intros r a p rp pa Hr. congruence. }
  (* the object, attached *)
  pose proof (Hatt i r Hi) as Hobj. simpl in Hobj.
  destruct (heap w !! r) as [a|] eqn:Ha; [|done].
  injection Hobj as Hsys.
  (* the loop over the children *)
  set (wb := update r (set_running false) w).
  assert (frame w wb) as Fb by apply frame_set_running.
  assert (∀ c, c ∈ children a → child w i c) as Hchild.
  { intros c Hc. by exists r, a. }
  destruct (stop_children listing rank d IHd r wb) with
    (cs := listing (children a)) (done_ := @nil string) (w := wb)
    as (wk & Hfold & Fk & Ck & Hgone & Hbelow).
  { by eapply attached_frame. }
  { subst wb. simpl. by rewrite lookup_alter_eq, Ha, <- Hsys. }
  { intros c Hc%Hl. split.
    - pose proof (Hranked i c (rtc_refl _ _) (Hchild c Hc)). lia.
    - eapply ranked_frame; [done|done|]. apply rtc_once. by apply Hchild. }
  { apply frame_refl. }
  { apply closed_refl. }
  { intros c Hc. by apply elem_of_nil in Hc. }
  { intros x Hx Hn. rewrite Hn in Hx. by destruct Hx. }
  simpl in Hgone, Hbelow.
  (* the actor is still registered when the loop is over *)
  assert (actors wk !! i = Some r) as Hik.
  { destruct (actors wk !! i) as [r'|] eqn:Hik.
    - destruct Fk as (_ & _ & Hs). apply Hs in Hik. simpl in Hik. congruence.
    - exfalso. destruct (Hbelow i) as (c & Hc%Hl & Hdesc);
        [by exists r|done|].
      eapply descendant_frame in Hdesc; [|exact Fb].
      assert (rank i ≤ rank c); [|specialize (Hranked i c (rtc_refl _ _)
                                                (Hchild c Hc)); lia].
      eapply rank_descendant; [|done].
      eapply ranked_frame; [done|apply frame_refl|].
      apply rtc_once. by apply Hchild. }
  assert (frame w wk) as Fwk by by eapply frame_trans.
  destruct Fwk as (Hh & Hd & Hs).
  destruct (Hh r a Ha) as (ak & Hak & (_&_&_&Hpar&_) & _).
  (* the last two steps *)
  assert (∃ w', unregister i r wk = Ok w' ∧ frame wk w'
                ∧ actors w' = delete i (actors wk)
                ∧ ∀ p rp pa, parent_id ak = Some p → truthy p = true →
                    actors w' !! p = Some rp → heap w' !! rp = Some pa →
                    i ∉ children pa)
    as (w' & Hw' & F' & Hreg & Hleft).
  { unfold unregister. rewrite Hak.
    destruct (truthy_opt (parent_id ak)) eqn:Htr; simpl.
    - destruct (actors wk !! default "" (parent_id ak)) as [rp0|] eqn:Hp0;
        simpl.
      + rewrite Hik. eexists. split; [done|].
        split; [apply frame_discard_delete|]. split; [done|].
        intros p rp pa Hp _. rewrite Hp in Hp0. simpl in *.
        rewrite lookup_delete_Some. intros [_ Hrp].
        assert (rp = rp0) as -> by congruence.
        rewrite lookup_alter_eq. destruct (heap wk !! rp0); [|done].
        intros [= <-]. simpl. apply not_elem_of_difference. right.
        by apply elem_of_singleton.
      + rewrite Hik. eexists. split; [done|].
        split; [apply frame_delete|]. split; [done|].
        intros p rp pa Hp _. rewrite Hp in Hp0. simpl in *.
        rewrite lookup_delete_Some. intros [_ Hrp]. congruence.
    - rewrite Hik. eexists. split; [done|].
      split; [apply frame_delete|]. split; [done|].
      intros p rp pa Hp Htp. rewrite Hp in Htr. simpl in Htr. congruence. }
  exists w'. split.
  { rewrite (stop_unfold listing d w i r Hi),
      (Actor_stop_unfold listing _ w r a Ha).
    fold wb. rewrite Hfold. simpl. exact Hw'. }
  assert (frame wb w') as Fbw by by eapply frame_trans.
  split; [by eapply frame_trans|]. split; [|split; [|split]].
  - (* closed *)
    intros x rx Hx Hn. destruct (decide (x = i)) as [->|Hne].
    + assert (rx = r) as -> by congruence. split.
      * destruct Fbw as (Hhb & _ & _).
        destruct (Hhb r (set_running false a)) as (a' & Ha' & Hsame & _).
        { subst wb. simpl. by rewrite lookup_alter_eq, Ha. }
        exists a'. split; [done|]. by apply Hsame.
      * intros a0 c Ha0 Hc. assert (a0 = a) as -> by congruence.
        eapply frame_gone; [exact F'|]. apply Hgone. by apply Hl.
    + assert (actors wk !! x = None) as Hnk.
      { rewrite Hreg, lookup_delete_ne in Hn by done. done. }
      assert (closed w wk) as Cwk.
      { eapply closed_trans; [exact Fb|exact Fk| |exact Ck].
        by apply closed_same_registry. }
      destruct (Cwk x rx Hx Hnk) as [(a' & Ha' & Hrun) Hch]. split.
      * destruct F' as (Hh' & _ & _).
        destruct (Hh' rx a' Ha') as (a'' & Ha'' & Hsame & _).
        exists a''. split; [done|]. by apply Hsame.
      * intros a0 c Ha0 Hc. eapply frame_gone; [exact F'|]. by eapply Hch.
  - rewrite Hreg. apply lookup_delete_eq.
  - (* only below *)
    intros x Hx Hn. exists i. split; [by left|].
    destruct (decide (x = i)) as [->|Hne]; [apply rtc_refl|].
    assert (actors wk !! x = None) as Hnk.
    { rewrite Hreg, lookup_delete_ne in Hn by done. done. }
    destruct (Hbelow x Hx Hnk) as (c & Hc%Hl & Hdesc).
    eapply rtc_l; [by apply Hchild|]. by eapply descendant_frame.
  - (* the parent's child set *)
    intros r0 a0 p rp pa Hr0 Ha0 Hp Htp.
    assert (r0 = r) as -> by congruence.
    assert (a0 = a) as -> by congruence.
    apply Hleft; [congruence|done].
Qed.

(** Everything below [i] has left the registry after a cascade from [i]. *)
Lemma stopped_from_below (w w' : World) (i x : string) :
  stopped_from w i w' → descendant w i x → actors w' !! x = None.
Proof.
  intros (F & C & Hi & _) Hx. unfold descendant in Hx. revert x Hx.
  apply (rtc_ind_r (λ x, actors w' !! x = None)); [done|].
  intros y z _ (r & a & Hy & Ha & Hz) IH.
  destruct (C y r Hy IH) as [_ Hch]. by eapply Hch.
Qed.

(** C5, as the code has it.  Take a world in which every registered actor
    is attached to the system (what [spawn] leaves) and an identity [i]
    below which the recorded children have no cycle: some [rank] decreases
    from every actor below [i] to each of its recorded children.  Then in
    whatever order the sets of children are listed, and at any recursion
    depth above the rank of [i], [stop] returns, and in the
    world it returns: every identity that is [i] or a transitively recorded
    child of [i] is absent from the registry, and every other identity is
    registered as before; each of those actors that was registered has
    [_running = False]; [i] is not in the child set of its parent, when the
    parent is still registered; and when [i] was not registered, nothing at
    all has changed. *)
Theorem stop_cascades (listing : gset string → list string) (w : World)
    (rank : string → nat) (i : string) (depth : nat) :
  lists_sets listing →
  attached w →
  ranked w rank i →
  rank i < depth →
  ∃ w', stop listing depth w i = Ok w'
    ∧ (∀ x, descendant w i x → actors w' !! x = None)
    ∧ (∀ x, ¬ descendant w i x → actors w' !! x = actors w !! x)
    ∧ (∀ x r, descendant w i x → actors w !! x = Some r →
         ∃ a', heap w' !! r = Some a' ∧ _running a' = false)
    ∧ (∀ r a p rp pa,
         actors w !! i = Some r → heap w !! r = Some a →
         parent_id a = Some p → truthy p = true →
         actors w' !! p = Some rp → heap w' !! rp = Some pa →
         i ∉ children pa)
    ∧ (actors w !! i = None → w' = w).
Proof.
  intros Hl Hatt Hranked Hrank.
  destruct (stop_returns listing rank depth Hl w i Hatt Hranked Hrank)
    as (w' & Hstop & Hfrom).
  exists w'. split; [done|].
  pose proof Hfrom as (F & C & Hi & Hbelow & Hleft).
  split; [|split; [|split; [|split]]].
  - intros x. by apply stopped_from_below.
  - intros x Hx. destruct (actors w' !! x) as [r|] eqn:Hx'.
    + destruct F as (_ & _ & Hs). symmetry. by apply Hs.
    + destruct (actors w !! x) as [r|] eqn:Hwx; [|done].
      destruct (Hbelow x) as (c & Hc & Hdesc); [by exists r|done|].
      apply list_elem_of_singleton in Hc as ->. done.
  - intros x r Hx Hr.
    destruct (C x r Hr) as [Hrun _]; [by eapply stopped_from_below|done].
  - exact Hleft.
  - intros Hn. destruct depth as [|d]; [lia|].
    rewrite stop_unknown in Hstop by done. congruence.
Qed.

(** In [family], stopping ["P"] removes ["P"], ["C1"], ["C2"] and ["G"]. *)
Lemma stop_cascades_witness :
  ∃ w', stop elements 3 family "P" = Ok w'
    ∧ (∀ x, descendant family "P" x → actors w' !! x = None)
    ∧ (∀ x, ¬ descendant family "P" x → actors w' !! x = actors family !! x)
    ∧ (∀ x r, descendant family "P" x → actors family !! x = Some r →
         ∃ a', heap w' !! r = Some a' ∧ _running a' = false)
    ∧ (∀ r a p rp pa,
         actors family !! "P" = Some r → heap family !! r = Some a →
         parent_id a = Some p → truthy p = true →
         actors w' !! p = Some rp → heap w' !! rp = Some pa →
         "P" ∉ children pa)
    ∧ (actors family !! "P" = None → w' = family).
Proof.
  apply (stop_cascades elements family family_rank "P" 3).
  - intros X c. apply elem_of_elements.
  - apply (bool_decide_unpack _). by vm_compute.
  - apply well_ranked_ranked. apply (bool_decide_unpack _). by vm_compute.
  - vm_compute. lia.
Defined.

(** The same run, computed: of the five identities only ["X"] is left, the
    four objects of the family have [_running = False], and the object of
    ["X"] is untouched. *)
Lemma stop_family_example :
  ∃ w', stop elements 3 family "P" = Ok w'
        ∧ dom (actors w') = {["X"]}
        ∧ (λ r, _running <$> heap w' !! r) <$> [0; 1; 2; 3]
          = [Some false; Some false; Some false; Some false]
        ∧ heap w' !! 4 = heap family !! 4.
Proof. eexists. split; [by vm_compute|]. by vm_compute. Qed.

(** * More of the code *)

(** ** [to_dict] and [from_dict] *)

Lemma MessageType_call_value (k : MessageType) :
  MessageType_call (VStr (value k)) = Ok k.
Proof. by destruct k. Qed.

Lemma MessageType_call_no_value (s : string) :
  (∀ k, value k ≠ s) →
  ∃ e, MessageType_call (VStr s) = Err e ∧ is_Exception e = true.
Proof.
  intros Hs. unfold MessageType_call.
  destruct (List.find _ members) as [m|] eqn:Hf; [|by eexists].
  apply List.find_some in Hf as [_ Hv]. apply bool_decide_eq_true in Hv.
  by destruct (Hs m).
Qed.

Lemma as_opt_str_opt_str (o : option string) :
  as_opt_str (Some (opt_str o)) = Some o.
Proof. by destruct o. Qed.

(** X1.  Round trip: an envelope whose kind is a member of [MessageType]
    is serialized by [to_dict] without error, and [from_dict] builds the
    same envelope back from the dict, provided [fromisoformat] reads back
    the envelope's timestamp from its [isoformat]. *)
Theorem from_dict_to_dict (isoformat : Z → string)
    (fromisoformat : string → Result Z) (m : ActorMessage)
    (k : MessageType) :
  message_type m = KEnum k →
  fromisoformat (isoformat (timestamp m)) = Ok (timestamp m) →
  ∃ d, to_dict isoformat m = Ok d
       ∧ from_dict fromisoformat d = Some (Ok m).
Proof.
  destruct m as [i r p mt s rt c ts]. simpl. intros -> Hts.
  eexists. split; [reflexivity|].
  unfold from_dict, dict_item.
  destruct k, s, rt, c; vm_compute; vm_compute in Hts; by rewrite Hts.
Qed.

Lemma from_dict_to_dict_witness :
  ∃ d, to_dict iso_digit request_m1 = Ok d
       ∧ from_dict from_iso_digit d = Some (Ok request_m1).
Proof.
  apply (from_dict_to_dict iso_digit from_iso_digit request_m1
           EXECUTE_COMMAND); reflexivity.
Defined.

(** X2.  The kind of a deserialized envelope is always a member of
    [MessageType]: [DEFAULT] when the dict has no ["message_type"].  A
    dict whose ["message_type"] is a string that is the value of no member
    (["child_error"], for one) is never turned into an envelope: if the
    calls before it succeed, [MessageType(...)] raises. *)
Theorem from_dict_kind (fromisoformat : string → Result Z)
    (data : list (string * PyVal)) :
  (∀ m, from_dict fromisoformat data = Some (Ok m) →
     ∃ k, message_type m = KEnum k
          ∧ (dict_get data "message_type" = None → k = DEFAULT))
  ∧ (∀ s, dict_get data "message_type" = Some (VStr s) →
       (∀ k, value k ≠ s) →
       ∃ e, from_dict fromisoformat data = Some (Err e)).
Proof.
  split.
  - intros m. unfold from_dict.
    repeat (match goal with
            | |- context [match ?x with _ => _ end] =>
                destruct x eqn:?; try discriminate
            end).
    intros [= <-]. eexists. split; [done|]. intros Hn.
    rewrite Hn in *. simpl in *. congruence.
  - intros s Hs Hno. unfold from_dict. rewrite Hs.
    change (default (VStr "default") (Some (VStr s))) with (VStr s).
    destruct (MessageType_call_no_value s Hno) as (e & -> & _).
    destruct (dict_item data "id"); [|by eexists].
    destruct (dict_item data "recipient"); [|by eexists].
    destruct (dict_item data "payload"); [|by eexists].
    destruct (dict_item data "timestamp") as [v|]; [|by eexists].
    destruct v; try by eexists.
    destruct (fromisoformat s0); by eexists.
Qed.

(** The child-failed envelope, written out as a dict by hand, is refused
    by [from_dict]. *)
Lemma from_dict_child_error :
  ∃ e, from_dict from_iso_digit child_error_dict = Some (Err e)
       ∧ exc_str e = "'child_error' is not a valid MessageType".
Proof. eexists. split; reflexivity. Qed.

(** X3.  The required keys are read in the order [id], [recipient],
    [payload], [timestamp], and the first one missing is the [KeyError]
    the caller gets, whatever else the dict holds. *)
Theorem from_dict_missing_key (fromisoformat : string → Result Z)
    (data : list (string * PyVal)) :
  (dict_get data "id" = None →
     from_dict fromisoformat data = Some (Err (mkExc KeyError "'id'")))
  ∧ (is_Some (dict_get data "id") →
     dict_get data "recipient" = None →
     from_dict fromisoformat data
     = Some (Err (mkExc KeyError "'recipient'")))
  ∧ (is_Some (dict_get data "id") →
     is_Some (dict_get data "recipient") →
     dict_get data "payload" = None →
     from_dict fromisoformat data
     = Some (Err (mkExc KeyError "'payload'")))
  ∧ (is_Some (dict_get data "id") →
     is_Some (dict_get data "recipient") →
     is_Some (dict_get data "payload") →
     dict_get data "timestamp" = None →
     from_dict fromisoformat data
     = Some (Err (mkExc KeyError "'timestamp'"))).
Proof.
  unfold from_dict, dict_item. split_and!.
  - by intros ->.
  - by intros [? ->] ->.
  - by intros [? ->] [? ->] ->.
  - by intros [? ->] [? ->] [? ->] ->.
Qed.

(** ** Registry invariants *)

Lemma lookup_alter_inv {B} (g : Actor → B) (f : Actor → Actor) (r r0 : loc)
    (h : gmap loc Actor) :
  (∀ a, g (f a) = g a) → g <$> alter f r h !! r0 = g <$> h !! r0.
Proof.
  intros Hf. destruct (decide (r = r0)) as [->|Hne].
  - rewrite lookup_alter_eq. destruct (h !! r0); simpl; [|done].
    by rewrite Hf.
  - by rewrite lookup_alter_ne.
Qed.

(** [spawn] changes [system], [parent_id] and [children] of the objects
    in the store and nothing else: whatever is read from an object without
    looking at these three is the same before and after. *)
Lemma spawn_heap_inv {B} (g : Actor → B) (w w' : World) (actor : loc)
    (parent : option string) (i : string) :
  (∀ s a, g (set_system s a) = g a) →
  (∀ p a, g (set_parent_id p a) = g a) →
  (∀ c a, g (set_children c a) = g a) →
  spawn w actor parent = Ok (w', i) →
  ∀ r, g <$> heap w' !! r = g <$> heap w !! r.
Proof.
  intros H1 H2 H3. unfold spawn.
  destruct (heap w !! actor) as [a|]; [|done]. intros [= <- <-] r. simpl.
  destruct (truthy_opt parent); simpl;
    [destruct (_ !! default "" parent); simpl|];
    rewrite ?lookup_alter_inv; auto.
Qed.

Lemma foldM_inv {S X} (P : S → Prop) (body : S → X → Result S) :
  (∀ s x s', P s → body s x = Ok s' → P s') →
  ∀ xs s s', P s → foldM body s xs = Ok s' → P s'.
Proof.
  intros Hbody. induction xs as [|x xs IH]; intros s s' Hs; simpl.
  - by intros [= <-].
  - destruct (body s x) as [s1|] eqn:Hb; [|done]. simpl.
    apply IH. by eapply Hbody.
Qed.

Lemma keyed_update (w : World) (r : loc) (f : Actor → Actor) :
  (∀ a, actor_id (f a) = actor_id a) → keyed w → keyed (update r f w).
Proof.
  intros Hf K x r0 a' Hx Ha'. simpl in *.
  assert (actor_id <$> alter f r (heap w) !! r0 = Some (actor_id a')) as E
    by by rewrite Ha'.
  rewrite lookup_alter_inv in E by done.
  apply fmap_Some in E as (a & Ha & ->). by eapply K.
Qed.

Lemma keyed_spawn (w w' : World) (actor : loc) (parent : option string)
    (i : string) :
  keyed w → spawn w actor parent = Ok (w', i) → keyed w'.
Proof.
  intros K Hs x r a' Hx Ha'.
  assert (actor_id <$> heap w !! r = Some (actor_id a')) as E.
  { rewrite <- (spawn_heap_inv actor_id w w' actor parent i); try done.
    by rewrite Ha'. }
  apply fmap_Some in E as (a & Ha & Hid). rewrite Hid.
  assert (is_Some (heap w !! actor)) as [a0 Ha0].
  { unfold spawn in Hs. destruct (heap w !! actor); [eauto|done]. }
  destruct (spawn_result w actor parent a0 Ha0) as (w'' & Hs' & Hreg & _).
  rewrite Hs in Hs'. injection Hs' as <- ->.
  rewrite Hreg in Hx. destruct (decide (x = actor_id a0)) as [->|Hne].
  - rewrite lookup_insert_eq in Hx. congruence.
  - rewrite lookup_insert_ne in Hx by done. by eapply K.
Qed.

Lemma keyed_send (w : World) (message : ActorMessage) :
  keyed w → keyed (send w message).
Proof.
  intros K. unfold send. destruct (actors w !! recipient message); [|done].
  by apply keyed_update.
Qed.

Lemma keyed_broadcast (w : World) (message : ActorMessage)
    (actor_ids : list string) :
  keyed w → keyed (broadcast w message actor_ids).
Proof.
  revert w. induction actor_ids as [|i ids IH]; intros w K; [done|].
  simpl. apply IH. by apply keyed_send.
Qed.

Lemma keyed_unregister (w w' : World) (i : string) (r : loc) :
  keyed w → unregister i r w = Ok w' → keyed w'.
Proof.
  intros K. unfold unregister.
  assert (∀ w1, keyed w1 →
            match actors w1 !! i with
            | Some _ =>
                Ok (logger info "actor_stopped" [("actor_id", VStr i)]
                      (set_actors (delete i (actors w1)) w1))
            | None => Err (mkExc KeyError i)
            end = Ok w' → keyed w') as Hdel.
  { intros w1 K1. destruct (actors w1 !! i); [|done]. intros [= <-].
    intros x r0 a. simpl. rewrite lookup_delete_Some. intros [_ Hx].
    by apply K1. }
  destruct (heap w !! r) as [a|]; [|done].
  destruct (truthy_opt (parent_id a)); simpl; [|by apply Hdel].
  destruct (actors w !! default "" (parent_id a)); simpl; [|by apply Hdel].
  intros H. eapply Hdel; [|exact H]. by apply keyed_update.
Qed.

Lemma keyed_stop (listing : gset string → list string) (depth : nat) :
  ∀ (w w' : World) (i : string),
    keyed w → stop listing depth w i = Ok w' → keyed w'.
Proof.
  induction depth as [|depth IH]; intros w w' i K; [done|]. simpl.
  destruct (actors w !! i) as [r|]; [|by intros [= <-]].
  destruct (Actor_stop listing (stop listing depth) w r) as [w1|] eqn:Hs;
    [|done].
  simpl. apply keyed_unregister. unfold Actor_stop in Hs.
  destruct (heap (update r (set_running false) w) !! r) as [a|]; [|done].
  eapply (foldM_inv keyed); [| |exact Hs]; [|by apply keyed_update].
  intros s x s' Ks. unfold stop_child.
  destruct (heap s !! r) as [a'|]; [|done].
  destruct (system a'); [by apply IH|by intros [= <-]].
Qed.

(** X4.  Every registered object is registered under its own identity:
    this holds in the empty world and is kept by [spawn], [send],
    [broadcast] and by every [stop] that returns.  So [get_actor] gives
    for an identity an actor with that identity, and no object is
    registered under two identities. *)
Theorem registry_is_keyed :
  keyed empty_world
  ∧ (∀ w w' actor parent i,
       keyed w → spawn w actor parent = Ok (w', i) → keyed w')
  ∧ (∀ w message, keyed w → keyed (send w message))
  ∧ (∀ w message actor_ids,
       keyed w → keyed (broadcast w message actor_ids))
  ∧ (∀ listing depth w w' i,
       keyed w → stop listing depth w i = Ok w' → keyed w')
  ∧ (∀ w x y r,
       keyed w → get_actor w x = Some r → get_actor w y = Some r →
       is_Some (heap w !! r) → x = y).
Proof.
  split_and!.
  - intros x r a Hx. simpl in Hx. by rewrite lookup_empty in Hx.
  - intros w w' actor parent i. apply keyed_spawn.
  - apply keyed_send.
  - apply keyed_broadcast.
  - intros listing depth w w' i. apply keyed_stop.
  - intros w x y r K Hx Hy [a Ha]. unfold get_actor in *.
    rewrite <- (K x r a Hx Ha). by apply (K y r a).
Qed.

(** ** Spawning children, stopping everything *)

(** X5.  [spawn_child] called on a registered parent that is attached to
    the system, for another actor object with another identity: the call
    returns the child's identity; the child is registered, attached, and
    names the parent in [parent_id]; the parent's [children] holds the
    child's identity; and no other object changes. *)
Theorem spawn_child_registers (w : World) (self actor : loc) (p c : Actor) :
  heap w !! self = Some p →
  system p = true →
  truthy (actor_id p) = true →
  actors w !! actor_id p = Some self →
  heap w !! actor = Some c →
  actor ≠ self →
  actor_id c ≠ actor_id p →
  ∃ w', spawn_child w self actor = (w', Ok (actor_id c))
    ∧ actors w' = <[actor_id c := actor]> (actors w)
    ∧ heap w' !! actor
      = Some (set_parent_id (Some (actor_id p)) (set_system true c))
    ∧ heap w' !! self
      = Some (set_children ({[actor_id c]} ∪ children p) p)
    ∧ (∀ r, r ≠ actor → r ≠ self → heap w' !! r = heap w !! r).
Proof.
  intros Hp Hsys Htr Hreg Hc Hne Hid. unfold spawn_child, spawn.
  rewrite Hp, Hsys, Hc. simpl. rewrite Htr.
  rewrite lookup_insert_ne, Hreg by done.
  eexists. split; [done|]. simpl. split; [done|]. split; [|split].
  - rewrite lookup_alter_ne by done. by rewrite !lookup_alter_eq, Hc.
  - rewrite lookup_alter_eq. by rewrite !lookup_alter_ne, Hp by done.
  - intros r Hr1 Hr2. by rewrite !lookup_alter_ne by done.
Qed.

(** In [P_and_C]'s construction: a parent spawned, then a second object
    spawned from it. *)
Lemma spawn_child_registers_witness :
  let w := (alloc (Actor_init (Some "C") "00000002")
              (spawned (alloc (Actor_init (Some "P") "00000001")
                          empty_world).1 0 None)).1 in
  let p := set_system true (Actor_init (Some "P") "00000001") in
  let c := Actor_init (Some "C") "00000002" in
  ∃ w', spawn_child w 0 1 = (w', Ok (actor_id c))
    ∧ actors w' = <[actor_id c := 1]> (actors w)
    ∧ heap w' !! 1
      = Some (set_parent_id (Some (actor_id p)) (set_system true c))
    ∧ heap w' !! 0
      = Some (set_children ({[actor_id c]} ∪ children p) p)
    ∧ (∀ r, r ≠ 1 → r ≠ 0 → heap w' !! r = heap w !! r).
Proof.
  cbv zeta. apply spawn_child_registers; try by vm_compute.
Defined.

(** Without a system, [spawn_child] raises [RuntimeError] and registers
    nothing. *)
Lemma spawn_child_no_system (w : World) (self actor : loc) (p : Actor) :
  heap w !! self = Some p →
  system p = false →
  ∃ w', spawn_child w self actor
        = (w', Err (mkExc RuntimeError "Actor has no system"))
        ∧ actors w' = actors w ∧ heap w' = heap w ∧ tasks w' = tasks w.
Proof.
  intros Hp Hs. unfold spawn_child. rewrite Hp, Hs. by eexists.
Qed.

Lemma listing_empty (listing : gset string → list string) :
  lists_sets listing → listing ∅ = [].
Proof.
  intros Hl. destruct (listing ∅) as [|c rest] eqn:E; [done|].
  assert (c ∈ listing ∅) as Hc by (rewrite E; by left).
  apply Hl in Hc. by apply not_elem_of_empty in Hc.
Qed.

Lemma alter_alter_id {A} (f g : A → A) (r : loc) (h : gmap loc A) (a : A) :
  h !! r = Some a → f (g a) = a → alter f r (alter g r h) = h.
Proof.
  intros Ha Hfg. apply map_eq. intros k. destruct (decide (r = k)) as [->|].
  - by rewrite !lookup_alter_eq, Ha; simpl; rewrite Hfg.
  - by rewrite !lookup_alter_ne.
Qed.

(** X6.  [put] then [get]: an envelope sent to a registered actor whose
    mailbox is empty is the one its loop takes next, and taking it leaves
    the world exactly as it was before the send. *)
Theorem get_after_send (w : World) (message : ActorMessage) (r : loc)
    (a : Actor) :
  actors w !! recipient message = Some r →
  heap w !! r = Some a →
  mailbox a = [] →
  get (send w message) r = (w, Some message).
Proof.
  intros Hr Ha Hmb. rewrite (send_present _ _ r Hr). unfold get. simpl.
  rewrite lookup_alter_eq, Ha. simpl. rewrite Hmb. simpl. f_equal.
  destruct w as [h reg t l]. unfold update, set_heap. simpl in *. f_equal.
  apply (alter_alter_id _ _ _ _ a); [done|]. destruct a. simpl in *.
  by subst.
Qed.

Lemma get_after_send_witness :
  get (send A_and_caller request_m1) 0 = (A_and_caller, Some request_m1).
Proof.
  apply (get_after_send A_and_caller request_m1 0
           (set_state RUNNING
              (set_running true
                 (set_system true (Actor_init (Some "A") "00000001")))));
    by vm_compute.
Defined.

(** *** [stop_all] *)

(** Stopping a list of identities one after the other, in a world where
    no recorded child relation has a cycle. *)
Lemma stop_each (listing : gset string → list string) (rank : string → nat)
    (depth : nat) :
  lists_sets listing →
  ∀ (ks : list string) (w : World),
    attached w →
    (∀ c, ranked w rank c) →
    (∀ c, c ∈ ks → rank c < depth) →
    ∃ w', foldM (stop listing depth) w ks = Ok w'
          ∧ frame w w' ∧ closed w w'
          ∧ ∀ c, c ∈ ks → actors w' !! c = None.
Proof.
  intros Hl. induction ks as [|c ks IH]; intros w Hatt Hranked Hdepth.
  - exists w. split; [done|]. split; [apply frame_refl|].
    split; [apply closed_refl|]. intros c Hc. by apply elem_of_nil in Hc.
  - destruct (stop_returns listing rank depth Hl w c) as (w1 & Hstop & Hfrom);
      [done|done|apply Hdepth; by left|].
    destruct Hfrom as (F1 & C1 & Hc1 & _).
    destruct (IH w1) as (w' & Hfold & F' & C' & Hgone).
    { by eapply attached_frame. }
    { intros c'. eapply ranked_frame; [apply Hranked|done|apply rtc_refl]. }
    { intros c' Hc'. apply Hdepth. by right. }
    exists w'. simpl. rewrite Hstop. simpl. split; [done|].
    split; [by eapply frame_trans|]. split; [by eapply closed_trans|].
    intros c' [->|Hc']%elem_of_cons; [|by apply Hgone].
    by eapply frame_gone.
Qed.

(** X7.  [stop_all], in a world where every registered actor is attached
    and the recorded children have no cycle, at a depth above every rank:
    it returns, the registry is empty afterwards, every actor that was
    registered has [_running = False], and the objects are otherwise as
    they were (identity, mailbox, state, parent unchanged, children only
    removed), in whatever order the identities and the sets of children
    are listed. *)
Theorem stop_all_empties (listing : gset string → list string)
    (keys : gmap string loc → list string) (rank : string → nat)
    (depth : nat) (w : World) :
  lists_sets listing →
  lists_keys keys →
  attached w →
  well_ranked w rank →
  (∀ x, is_Some (actors w !! x) → rank x < depth) →
  ∃ w', stop_all listing keys depth w = Ok w'
    ∧ actors w' = ∅
    ∧ (∀ x r, actors w !! x = Some r →
         ∃ a', heap w' !! r = Some a' ∧ _running a' = false)
    ∧ (∀ r a, heap w !! r = Some a →
         ∃ a', heap w' !! r = Some a' ∧ same_but_stopped a a').
Proof.
  intros Hl Hk Hatt Hwr Hdepth.
  destruct (stop_each listing rank depth Hl (keys (actors w)) w)
    as (w' & Hfold & F & C & Hgone).
  { done. }
  { intros c. by apply well_ranked_ranked. }
  { intros c Hc. apply Hdepth. by apply Hk. }
  assert (∀ x, actors w' !! x = None) as Hnone.
  { intros x. destruct (actors w !! x) as [r|] eqn:Hx.
    - apply Hgone. apply Hk. by rewrite Hx.
    - by eapply frame_gone. }
  exists w'. split; [done|]. split; [by apply map_empty|]. split.
  - intros x r Hx. by destruct (C x r Hx (Hnone x)) as [? _].
  - intros r a Ha. destruct F as (Hh & _ & _).
    destruct (Hh r a Ha) as (a' & ? & ? & _). by exists a'.
Qed.

Lemma stop_all_empties_witness :
  ∃ w', stop_all elements (λ m, elements (dom m)) 3 family = Ok w'
    ∧ actors w' = ∅
    ∧ (∀ x r, actors family !! x = Some r →
         ∃ a', heap w' !! r = Some a' ∧ _running a' = false)
    ∧ (∀ r a, heap family !! r = Some a →
         ∃ a', heap w' !! r = Some a' ∧ same_but_stopped a a').
Proof.
  apply (stop_all_empties elements (λ m, elements (dom m)) family_rank 3).
  - intros X c. apply elem_of_elements.
  - intros m x. by rewrite elem_of_elements, elem_of_dom.
  - apply (bool_decide_unpack _). by vm_compute.
  - apply (bool_decide_unpack _). by vm_compute.
  - intros x _. unfold family_rank. repeat case_decide; lia.
Defined.

(** X8.  [spawn] then [stop]: an actor object without children, not yet
    registered and with an identity that is not registered, is spawned
    under any parent but itself and then stopped.  The registry is back
    to what it was; the object is attached, names the parent and has
    [_running = False]; and every other object whose [children] did not
    hold the identity before is as it was (the parent's child set lost
    what [spawn] had added). *)
Theorem spawn_then_stop (listing : gset string → list string) (depth : nat)
    (w : World) (actor : loc) (a : Actor) (parent : option string) :
  lists_sets listing →
  heap w !! actor = Some a →
  children a = ∅ →
  actors w !! actor_id a = None →
  (∀ x, actors w !! x ≠ Some actor) →
  parent ≠ Some (actor_id a) →
  ∃ w1 w2,
    spawn w actor parent = Ok (w1, actor_id a)
    ∧ stop listing (S depth) w1 (actor_id a) = Ok w2
    ∧ actors w2 = actors w
    ∧ heap w2 !! actor
      = Some (set_running false (set_parent_id parent (set_system true a)))
    ∧ (∀ r o, r ≠ actor → heap w !! r = Some o →
         actor_id a ∉ children o → heap w2 !! r = Some o).
Proof.
  intros Hl Ha Hch Hfresh Hunreg Hpar.
  pose proof (listing_empty listing Hl) as Hnil.
  assert (∀ X : gset string, actor_id a ∉ X →
            ({[actor_id a]} ∪ X) ∖ {[actor_id a]} = X) as Hset.
  { intros X HX. apply set_eq. intros y.
    rewrite elem_of_difference, elem_of_union, !elem_of_singleton.
    split; [by intros [[->|?] ?]|].
    intros Hy. split; [by right|]. by intros ->. }
  unfold spawn. rewrite Ha.
  destruct (truthy_opt parent) eqn:Htr; simpl.
  - destruct parent as [p|]; [|done]. simpl in Htr. simpl.
    assert (p ≠ actor_id a) as Hp by congruence.
    rewrite lookup_insert_ne by done.
    destruct (actors w !! p) as [rp|] eqn:Hrp.
    + assert (rp ≠ actor) as Hne by (intros ->; by eapply Hunreg).
      eexists _, _. split; [done|]. simpl. rewrite lookup_insert_eq.
      unfold Actor_stop, unregister. simpl.
      rewrite lookup_alter_eq, lookup_alter_ne, !lookup_alter_eq, Ha by done.
      simpl. rewrite Hch, Hnil. simpl.
      rewrite lookup_alter_eq, lookup_alter_ne, !lookup_alter_eq, Ha by done.
      simpl. rewrite Htr, lookup_insert_ne, Hrp by done. simpl.
      rewrite lookup_insert_eq. split; [done|]. simpl.
      split; [by rewrite delete_insert_id|]. split.
      * rewrite lookup_alter_ne, lookup_alter_eq, lookup_alter_ne,
          !lookup_alter_eq, Ha by done. done.
      * intros r o Hr Ho Hnot. destruct (decide (r = rp)) as [->|Hrne].
        -- rewrite lookup_alter_eq, lookup_alter_ne, lookup_alter_eq,
             !lookup_alter_ne, Ho by done. simpl.
           rewrite Hset by done. by destruct o.
        -- by rewrite !lookup_alter_ne by done.
    + eexists _, _. split; [done|]. simpl. rewrite lookup_insert_eq.
      unfold Actor_stop, unregister. simpl.
      rewrite !lookup_alter_eq, Ha. simpl. rewrite Hch, Hnil. simpl.
      rewrite !lookup_alter_eq, Ha. simpl.
      rewrite Htr, lookup_insert_ne, Hrp by done. simpl.
      rewrite lookup_insert_eq. split; [done|]. simpl.
      split; [by rewrite delete_insert_id|]. split.
      * by rewrite !lookup_alter_eq, Ha.
      * intros r o Hr Ho _. by rewrite !lookup_alter_ne by done.
  - eexists _, _. split; [done|]. simpl. rewrite lookup_insert_eq.
    unfold Actor_stop, unregister. simpl.
    rewrite !lookup_alter_eq, Ha. simpl. rewrite Hch, Hnil. simpl.
    rewrite !lookup_alter_eq, Ha. simpl. rewrite Htr. simpl.
    rewrite lookup_insert_eq. split; [done|]. simpl.
    split; [by rewrite delete_insert_id|]. split.
    + by rewrite !lookup_alter_eq, Ha.
    + intros r o Hr Ho _. by rewrite !lookup_alter_ne by done.
Qed.

(** A third object is built beside ["A"] and the caller, spawned under
    ["A"] and stopped. *)
Lemma spawn_then_stop_witness :
  let w := (alloc (Actor_init (Some "new") "00000003") A_and_caller).1 in
  let a := Actor_init (Some "new") "00000003" in
  ∃ w1 w2,
    spawn w 2 (Some "A") = Ok (w1, actor_id a)
    ∧ stop elements 1 w1 (actor_id a) = Ok w2
    ∧ actors w2 = actors w
    ∧ heap w2 !! 2
      = Some (set_running false
                (set_parent_id (Some "A") (set_system true a)))
    ∧ (∀ r o, r ≠ 2 → heap w !! r = Some o →
         actor_id a ∉ children o → heap w2 !! r = Some o).
Proof.
  cbv zeta. apply (spawn_then_stop elements 0).
  - intros X c. apply elem_of_elements.
  - by vm_compute.
  - done.
  - by vm_compute.
  - intros x Hx.
    assert (map_Forall (λ _ r, r ≠ 2)
              (actors (alloc (Actor_init (Some "new") "00000003")
                         A_and_caller).1)) as Hall
      by (apply (bool_decide_unpack _); by vm_compute).
    by apply (Hall x 2 Hx).
  - done.
Defined.

(** ** The loop and the stop flag *)

(** X10.  [_run] sets [_running] to true when it starts, whatever the flag
    was: a loop whose first step runs after [Actor.stop] has cleared the
    flag runs all the same.  And on an empty mailbox a turn changes
    nothing, so such a loop stays in its [while] for as many turns as one
    cares to run; nothing but a later [stop] ends it. *)
Theorem run_enter_overrides_stop (receive : Handler) (w : World)
    (self : loc) (a : Actor) (draws : list (string * Z)) :
  heap w !! self = Some a →
  mailbox a = [] →
  let w' := _run_enter (update self (set_running false) w) self in
  heap w' !! self = Some (set_state RUNNING (set_running true a))
  ∧ _run_loop receive w' self draws = (w', Looping).
Proof.
  intros Ha Hmb. cbv zeta.
  assert (heap (_run_enter (update self (set_running false) w) self) !! self
          = Some (set_state RUNNING (set_running true a))) as Hw'.
  { unfold _run_enter. simpl. by rewrite !lookup_alter_eq, Ha. }
  split; [done|]. induction draws as [|[u t] draws IH]; [done|].
  simpl. unfold _run_iter at 1, get. rewrite Hw'. simpl. by rewrite Hmb.
Qed.

(** The third object of [spawn_then_stop_witness], after its stop. *)
Lemma run_enter_overrides_stop_witness :
  let w := (alloc (Actor_init (Some "new") "00000003") A_and_caller).1 in
  let a := Actor_init (Some "new") "00000003" in
  let w' := _run_enter (update 2 (set_running false) w) 2 in
  heap w' !! 2 = Some (set_state RUNNING (set_running true a))
  ∧ _run_loop (raising (mkExc OtherException "")) w' 2
      [("0000000a", 1%Z); ("0000000b", 2%Z)] = (w', Looping).
Proof.
  cbv zeta. apply run_enter_overrides_stop; by vm_compute.
Defined.

(** ** The safety agent and the command handler *)

(** X11.  [is_safe] accepts a command exactly when the command is not
    empty, no forbidden pattern is found in it, and either ["*"] is in the
    allowed list or the command's first word is. *)
Theorem is_safe_accepts (re_search : string → string → bool)
    (split : string → list string) (allowed : list string)
    (command : string) :
  (is_safe re_search split allowed command).1 = true
  ↔ truthy command = true
    ∧ (∀ p, p ∈ FORBIDDEN_PATTERNS → re_search p command = false)
    ∧ ("*" ∈ allowed
       ∨ match split command with first :: _ => first | [] => "" end
         ∈ allowed).
Proof.
  assert (forbidden re_search command = None
          ↔ ∀ p, p ∈ FORBIDDEN_PATTERNS → re_search p command = false)
    as Hnone.
  { unfold forbidden. split.
    - intros Hf p Hp. apply list_elem_of_In in Hp.
      by apply (List.find_none _ _ Hf).
    - intros Hall.
      destruct (List.find _ FORBIDDEN_PATTERNS) as [p|] eqn:Hf; [|done].
      apply List.find_some in Hf as [Hin Hp].
      apply list_elem_of_In in Hin. rewrite (Hall p Hin) in Hp. done. }
  unfold is_safe. destruct (truthy command); simpl;
    [|split; [done|by intros [? _]]].
  case_bool_decide as Hstar.
  - destruct (forbidden re_search command) as [p|] eqn:Hf; simpl.
    + split; [done|]. intros (_ & Hall & _). apply Hnone in Hall. done.
    + split; [|done]. intros _. split; [done|]. split; [|by left].
      by apply Hnone.
  - case_bool_decide as Hbase; simpl.
    + destruct (forbidden re_search command) as [p|] eqn:Hf; simpl.
      * split; [done|]. intros (_ & Hall & _). apply Hnone in Hall. done.
      * split; [|done]. intros _. split; [done|]. split; [|by right].
        by apply Hnone.
    + split; [done|]. intros (_ & _ & [?|?]); done.
Qed.

(** X12.  A command the safety agent rejects never reaches the executor:
    the handler's outcome is the same with any two executors.  With a
    reply address and a system, the outcome is one reply whose payload is
    a failed [CommandResult] carrying the agent's reason. *)
Theorem rejected_command_is_not_executed
    (is_safe : string → bool * string)
    (execute execute' : string → Result ExecResult)
    (uuid : string) (utcnow : Z) (w : World) (self : loc)
    (message : ActorMessage) (command reason : string) (t : Z) :
  payload message = VExecuteCommand command t →
  is_safe command = (false, reason) →
  _handle_execute_command is_safe execute uuid utcnow w self message
  = _handle_execute_command is_safe execute' uuid utcnow w self message
  ∧ (∀ a, heap w !! self = Some a → system a = true →
       truthy_opt (reply_to message) = true →
       _handle_execute_command is_safe execute uuid utcnow w self message
       = (send w
            (reply_message a message
               (VCommandResult false VNone
                  (Some ("Command rejected by safety agent. Reason: "
                         +:+ reason)))
               uuid utcnow), None)).
Proof.
  intros Hp Hs. unfold _handle_execute_command. rewrite Hp, Hs. simpl.
  split; [done|]. intros a Ha Hsys Hr. unfold tell.
  by rewrite Ha, Hr, Hsys.
Qed.

Lemma rejected_command_is_not_executed_witness :
  let refuse := λ _ : string, (false, "Not safe") in
  let failing := λ _ : string, Err (mkExc OtherException "boom") in
  _handle_execute_command refuse echo "0000000a" 1 A_and_caller 0 request_m1
  = _handle_execute_command refuse failing "0000000a" 1 A_and_caller 0
      request_m1
  ∧ (∀ a, heap A_and_caller !! 0 = Some a → system a = true →
       truthy_opt (reply_to request_m1) = true →
       _handle_execute_command refuse echo "0000000a" 1 A_and_caller 0
         request_m1
       = (send A_and_caller
            (reply_message a request_m1
               (VCommandResult false VNone
                  (Some ("Command rejected by safety agent. Reason: "
                         +:+ "Not safe")))
               "0000000a" 1), None)).
Proof.
  cbv zeta.
  apply (rejected_command_is_not_executed _ echo _ _ _ _ _ _ "echo hi"
           "Not safe" 30); reflexivity.
Defined.

(** What [send] and [tell] can change in the store: mailboxes. *)
Lemma send_only_mailboxes (w : World) (message : ActorMessage) (r : loc)
    (o : Actor) :
  heap w !! r = Some o →
  ∃ mb, heap (send w message) !! r = Some (set_mailbox mb o).
Proof.
  intros Ho. unfold send.
  destruct (actors w !! recipient message) as [r'|]; simpl.
  - destruct (decide (r' = r)) as [->|Hne].
    + rewrite lookup_alter_eq, Ho. by eexists.
    + rewrite lookup_alter_ne, Ho by done. exists (mailbox o). by destruct o.
  - exists (mailbox o). by destruct o.
Qed.

Lemma tell_only_mailboxes (w : World) (self : loc)
    (message : ActorMessage) (r : loc) (o : Actor) :
  heap w !! r = Some o →
  ∃ mb, heap (tell w self message) !! r = Some (set_mailbox mb o).
Proof.
  intros Ho. unfold tell. destruct (heap w !! self) as [a|].
  - destruct (system a); [by apply send_only_mailboxes|].
    exists (mailbox o). by destruct o.
  - exists (mailbox o). by destruct o.
Qed.

Lemma tell_actors (w : World) (self : loc) (message : ActorMessage) :
  actors (tell w self message) = actors w.
Proof.
  unfold tell. destruct (heap w !! self) as [a|]; [|done].
  destruct (system a); [apply send_actors|done].
Qed.

(** X13.  A request the handler cannot use is dropped without a word to
    the sender: when the kind is not the handler's, or the payload is not
    of the handler's class, [receive] returns normally, the only change is
    one log entry, and no reply is sent even if [reply_to] is set. *)
Theorem unusable_request_is_dropped
    (is_safe : string → bool * string) (execute : string → Result ExecResult)
    (search : string → Result PyVal) (uuid : string) (utcnow : Z)
    (w : World) (self : loc) (a : Actor) (message : ActorMessage) :
  heap w !! self = Some a →
  (py_eq (message_type message) (KEnum EXECUTE_COMMAND) = false
   ∨ (∀ c t, payload message ≠ VExecuteCommand c t) →
   ∃ entry,
     CommandActor_receive is_safe execute uuid utcnow w self message
     = (mkWorld (heap w) (actors w) (tasks w) (log w ++ [entry]), None))
  ∧ (py_eq (message_type message) (KEnum WEB_SEARCH) = false
     ∨ (∀ q n, payload message ≠ VWebSearchQuery q n) →
     ∃ entry,
       WebSearchActor_receive search uuid utcnow w self message
       = (mkWorld (heap w) (actors w) (tasks w) (log w ++ [entry]), None)).
Proof.
  intros Ha. split.
  - intros H. unfold CommandActor_receive.
    destruct (py_eq (message_type message) (KEnum EXECUTE_COMMAND)) eqn:Hk.
    + destruct H as [?|Hp]; [done|]. unfold _handle_execute_command.
      rewrite Ha. destruct (payload message) eqn:E; try by eexists.
      exfalso. by eapply Hp.
    + rewrite Ha. by eexists.
  - intros H. unfold WebSearchActor_receive.
    destruct (py_eq (message_type message) (KEnum WEB_SEARCH)) eqn:Hk.
    + destruct H as [?|Hp]; [done|]. unfold _handle_web_search.
      rewrite Ha. destruct (payload message) eqn:E; try by eexists.
      exfalso. by eapply Hp.
    + rewrite Ha. by eexists.
Qed.

(** The command actor is handed a web-search request. *)
Lemma unusable_request_is_dropped_witness :
  let a := set_state RUNNING
             (set_running true
                (set_system true (Actor_init (Some "A") "00000001"))) in
  (py_eq (message_type search_m1) (KEnum EXECUTE_COMMAND) = false
   ∨ (∀ c t, payload search_m1 ≠ VExecuteCommand c t) →
   ∃ entry,
     CommandActor_receive always_safe echo "0000000a" 1 A_and_caller 0
       search_m1
     = (mkWorld (heap A_and_caller) (actors A_and_caller)
          (tasks A_and_caller) (log A_and_caller ++ [entry]), None))
  ∧ (py_eq (message_type search_m1) (KEnum WEB_SEARCH) = false
     ∨ (∀ q n, payload search_m1 ≠ VWebSearchQuery q n) →
     ∃ entry,
       WebSearchActor_receive no_results "0000000a" 1 A_and_caller 0
         search_m1
       = (mkWorld (heap A_and_caller) (actors A_and_caller)
            (tasks A_and_caller) (log A_and_caller ++ [entry]), None)).
Proof.
  cbv zeta.
  apply (unusable_request_is_dropped always_safe echo no_results
           "0000000a" 1 A_and_caller 0
           (set_state RUNNING
              (set_running true
                 (set_system true (Actor_init (Some "A") "00000001"))))
           search_m1).
  by vm_compute.
Defined.

(** The command handler changes mailboxes and the log, nothing else, and
    raises only what the executor raises that is no [Exception]. *)
Lemma CommandActor_receive_frame
    (is_safe : string → bool * string) (execute : string → Result ExecResult)
    (uuid : string) (utcnow : Z) (w : World) (self : loc) (a : Actor)
    (message : ActorMessage) :
  heap w !! self = Some a →
  (∀ c e, execute c = Err e → is_Exception e = true) →
  ∃ w', CommandActor_receive is_safe execute uuid utcnow w self message
        = (w', None)
        ∧ actors w' = actors w
        ∧ ∀ r o, heap w !! r = Some o →
            ∃ mb, heap w' !! r = Some (set_mailbox mb o).
Proof.
  intros Ha Hexc.
  assert (∀ r o, heap w !! r = Some o →
            ∃ mb, heap w !! r = Some (set_mailbox mb o)) as Hsame.
  { intros r o Ho. exists (mailbox o). by destruct o. }
  unfold CommandActor_receive.
  destruct (py_eq _ _); [|rewrite Ha; by eexists].
  unfold _handle_execute_command. rewrite Ha.
  destruct (payload message); try by eexists.
  destruct (is_safe command) as [safe reason].
  assert (∀ result,
            ∃ w', (if truthy_opt (reply_to message)
                   then (tell w self
                           (reply_message a message result uuid utcnow),
                         None)
                   else (logger info "no_reply_address"
                           [("message_id", VStr (id message))] w, None))
                  = (w', @None PyExc)
                  ∧ actors w' = actors w
                  ∧ ∀ r o, heap w !! r = Some o →
                      ∃ mb, heap w' !! r = Some (set_mailbox mb o)) as Hend.
  { intros result. destruct (truthy_opt (reply_to message)).
    - eexists. split; [done|]. split; [apply tell_actors|].
      intros r o. apply tell_only_mailboxes.
    - by eexists. }
  destruct safe; simpl; [|apply Hend].
  destruct (execute command) as [rd|e] eqn:He; [apply Hend|].
  rewrite (Hexc _ _ He). apply Hend.
Qed.

(** X14.  A failing executor never fails the command actor.  If the
    executor raises nothing but [Exception]s, a turn of the loop with
    [CommandActor.receive] never runs the error path: the loop goes on,
    the actor's state is what it was, the registry is unchanged and the
    objects of the store differ in their mailboxes at most. *)
Theorem command_actor_turn_never_fails
    (is_safe : string → bool * string) (execute : string → Result ExecResult)
    (uuid uuid' : string) (utcnow utcnow' : Z) (w : World) (self : loc)
    (a : Actor) :
  heap w !! self = Some a →
  _running a = true →
  (∀ c e, execute c = Err e → is_Exception e = true) →
  ∃ w', _run_iter (CommandActor_receive is_safe execute uuid utcnow)
          w self uuid' utcnow' = (w', Looping)
        ∧ actors w' = actors w
        ∧ (∀ r o, heap w !! r = Some o →
             ∃ mb, heap w' !! r = Some (set_mailbox mb o))
        ∧ state <$> heap w' !! self = Some (state a).
Proof.
  intros Ha Hrun Hexc. unfold _run_iter, get. rewrite Ha, Hrun.
  assert (∀ w', (∀ r o, heap w !! r = Some o →
                   ∃ mb, heap w' !! r = Some (set_mailbox mb o)) →
            state <$> heap w' !! self = Some (state a)) as Hstate.
  { intros w' H. destruct (H self a Ha) as (mb & ->). done. }
  destruct (mailbox a) as [|message rest] eqn:Hmb.
  - exists w. split; [done|]. split; [done|].
    assert (∀ r o, heap w !! r = Some o →
              ∃ mb, heap w !! r = Some (set_mailbox mb o)) as Hsame.
    { intros r o Ho. exists (mailbox o). by destruct o. }
    split; [done|]. by apply Hstate.
  - destruct (CommandActor_receive_frame is_safe execute uuid utcnow
                (update self (set_mailbox rest) w) self
                (set_mailbox rest a) message)
      as (w' & -> & Hreg & Hheap).
    { simpl. by rewrite lookup_alter_eq, Ha. }
    { done. }
    exists w'. split; [done|]. split; [done|].
    assert (∀ r o, heap w !! r = Some o →
              ∃ mb, heap w' !! r = Some (set_mailbox mb o)) as Hall.
    { intros r o Ho. destruct (decide (r = self)) as [->|Hne].
      - destruct (Hheap self (set_mailbox rest o)) as (mb & Hmb').
        { simpl. by rewrite lookup_alter_eq, Ho. }
        exists mb. by rewrite Hmb'.
      - apply Hheap. simpl. by rewrite lookup_alter_ne. }
    split; [done|]. by apply Hstate.
Qed.

(** ["A"] handles [request_m1] with an executor that raises. *)
Lemma command_actor_turn_never_fails_witness :
  let failing := λ _ : string, Err (mkExc OtherException "boom") in
  let w := send A_and_caller request_m1 in
  let a := set_mailbox [request_m1]
             (set_state RUNNING
                (set_running true
                   (set_system true (Actor_init (Some "A") "00000001")))) in
  ∃ w', _run_iter (CommandActor_receive always_safe failing "0000000a" 1)
          w 0 "0000000e" 2 = (w', Looping)
        ∧ actors w' = actors w
        ∧ (∀ r o, heap w !! r = Some o →
             ∃ mb, heap w' !! r = Some (set_mailbox mb o))
        ∧ state <$> heap w' !! 0 = Some (state a).
Proof.
  cbv zeta.
  apply (command_actor_turn_never_fails always_safe _ "0000000a"
           "0000000e" 1 2 (send A_and_caller request_m1) 0
           (set_mailbox [request_m1]
              (set_state RUNNING
                 (set_running true
                    (set_system true (Actor_init (Some "A") "00000001"))))));
    [by vm_compute|done|].
  intros c e [= <-]. done.
Defined.

(** ** The sub-agent and the agent's [receive] *)

Lemma send_same (w1 w2 : World) (message : ActorMessage) :
  heap w1 = heap w2 → actors w1 = actors w2 →
  heap (send w1 message) = heap (send w2 message).
Proof.
  intros Hh Hr. unfold send. rewrite Hr.
  destruct (actors w2 !! recipient message); simpl; by rewrite Hh.
Qed.

(** X15.  The sub-agent answers a delegated task under the request's id:
    attached to the system and given a [DELEGATE_TASK] request with
    [reply_to] set, [SubAgent.receive] returns normally after sending
    exactly one envelope, addressed to [reply_to], with the sub-agent as
    sender and the [id] of the request as [correlation_id].  When the
    provider answered, the envelope has kind [RESPONSE] and its payload
    holds the task, the provider's content and model and
    [success = True]; when the preview slice or the provider raised an
    [Exception], it has kind [ERROR] and its payload holds [str] of the
    request's payload, the text of the exception and [success = False]. *)
Theorem sub_agent_reply_carries_request_id
    (generate : list (string * PyVal) → Result (string * string))
    (py_str : PyVal → string) (slice50 : PyVal → Result PyVal)
    (system_prompt uuid : string) (utcnow : Z) (w : World) (self : loc)
    (a : Actor) (message : ActorMessage) (to : string) :
  heap w !! self = Some a →
  system a = true →
  reply_to message = Some to →
  truthy to = true →
  message_type message = KEnum DELEGATE_TASK →
  (∀ v e, slice50 v = Err e → is_Exception e = true) →
  (∀ msgs e, generate msgs = Err e → is_Exception e = true) →
  ∃ w' reply,
    SubAgent_receive generate py_str slice50 system_prompt
      uuid utcnow w self message = (w', None)
    ∧ heap w' = heap (send w reply)
    ∧ actors w' = actors w
    ∧ correlation_id reply = Some (id message)
    ∧ recipient reply = to
    ∧ sender reply = Some (actor_id a)
    ∧ (∀ preview response,
         slice50 (task_text_of py_str (payload message)) = Ok preview →
         generate [("system", VStr system_prompt);
                   ("user", task_text_of py_str (payload message))]
         = Ok response →
         message_type reply = KEnum RESPONSE
         ∧ payload reply
           = VDict [("task", task_text_of py_str (payload message));
                    ("result", VStr response.1);
                    ("model", VStr response.2);
                    ("success", VBool true)])
    ∧ (∀ e,
         slice50 (task_text_of py_str (payload message)) = Err e
         ∨ ((∃ preview,
               slice50 (task_text_of py_str (payload message)) = Ok preview)
            ∧ generate [("system", VStr system_prompt);
                        ("user", task_text_of py_str (payload message))]
              = Err e) →
         message_type reply = KEnum Message.ERROR
         ∧ payload reply
           = VDict [("task", VStr (py_str (payload message)));
                    ("error", VStr (exc_str e));
                    ("success", VBool false)]).
Proof.
  intros Ha Hsys Hto Htr Hk Hslice Hgen.
  unfold SubAgent_receive. rewrite Hk. simpl.
  unfold _handle_delegated_task, try_delegated_task. rewrite Ha, Hto, Hsys.
  simpl. rewrite Htr. simpl.
  destruct (slice50 _) as [preview|e] eqn:Hs.
  - destruct (generate _) as [response|e] eqn:Hg.
    + eexists _, (result_message a message _ response uuid utcnow).
      split; [done|]. simpl. split; [by apply send_same|].
      split; [by rewrite send_actors|]. simpl. rewrite Hto.
      split_and!; try done.
      * by intros preview' response' _ [= <-].
      * intros e [?|[_ ?]]; done.
    + rewrite (Hgen _ _ Hg).
      eexists _, (task_error_message py_str a message e uuid utcnow).
      split; [done|]. split; [by apply send_same|].
      split; [by rewrite send_actors|]. simpl. rewrite Hto.
      split_and!; try done.
      by intros e' [?|[_ [= <-]]].
  - rewrite (Hslice _ _ Hs).
    eexists _, (task_error_message py_str a message e uuid utcnow).
    split; [done|]. split; [by apply send_same|].
    split; [by rewrite send_actors|]. simpl. rewrite Hto.
    split_and!; try done.
    by intros e' [[= <-]|[[? ?] _]].
Qed.

(** ["A"] as a sub-agent answers [delegate_m1]; the provider answers
    ["42"]. *)
Lemma sub_agent_reply_carries_request_id_witness :
  let a := set_state RUNNING
             (set_running true
                (set_system true (Actor_init (Some "A") "00000001"))) in
  ∃ w' reply,
    SubAgent_receive answer str_of slice_of "You are a helpful assistant."
      "0000000a" 1 A_and_caller 0 delegate_m1 = (w', None)
    ∧ heap w' = heap (send A_and_caller reply)
    ∧ actors w' = actors A_and_caller
    ∧ correlation_id reply = Some (id delegate_m1)
    ∧ recipient reply = "caller"
    ∧ sender reply = Some (actor_id a)
    ∧ (∀ preview response,
         slice_of (task_text_of str_of (payload delegate_m1)) = Ok preview →
         answer [("system", VStr "You are a helpful assistant.");
                   ("user", task_text_of str_of (payload delegate_m1))]
         = Ok response →
         message_type reply = KEnum RESPONSE
         ∧ payload reply
           = VDict [("task", task_text_of str_of (payload delegate_m1));
                    ("result", VStr response.1);
                    ("model", VStr response.2);
                    ("success", VBool true)])
    ∧ (∀ e,
         slice_of (task_text_of str_of (payload delegate_m1)) = Err e
         ∨ ((∃ preview,
               slice_of (task_text_of str_of (payload delegate_m1)) = Ok preview)
            ∧ answer [("system", VStr "You are a helpful assistant.");
                        ("user", task_text_of str_of (payload delegate_m1))]
              = Err e) →
         message_type reply = KEnum Message.ERROR
         ∧ payload reply
           = VDict [("task", VStr (str_of (payload delegate_m1)));
                    ("error", VStr (exc_str e));
                    ("success", VBool false)]).
Proof.
  cbv zeta.
  apply (sub_agent_reply_carries_request_id answer str_of slice_of
           "You are a helpful assistant." "0000000a" 1 A_and_caller 0
           (set_state RUNNING
              (set_running true
                 (set_system true (Actor_init (Some "A") "00000001"))))
           delegate_m1 "caller");
    [by vm_compute|done|done|done|done| |].
  - intros v e. unfold slice_of. destruct v; intros [= <-]; done.
  - intros msgs e. discriminate.
Defined.

(** On that example, computed: the caller finds one envelope of kind
    [RESPONSE] with [correlation_id = "m1"] and the provider's answer; with
    a provider that raises, it finds one of kind [ERROR] with the same
    [correlation_id] and the text of the exception. *)
Lemma sub_agent_example :
  let failing : list (string * PyVal) → Result (string * string) :=
    λ _, Err (mkExc OtherException "rate limit") in
  let sent generate :=
    (λ a, (λ m, (message_type m, correlation_id m, payload m))
            <$> mailbox a)
    <$> heap (SubAgent_receive generate str_of slice_of "prompt"
                "0000000a" 1 A_and_caller 0 delegate_m1).1 !! 1 in
  sent answer
  = Some [(KEnum RESPONSE, Some "m1",
           VDict [("task", VStr "sum"); ("result", VStr "42");
                  ("model", VStr "some-model"); ("success", VBool true)])]
  ∧ sent failing
    = Some [(KEnum Message.ERROR, Some "m1",
             VDict [("task", VStr "..."); ("error", VStr "rate limit");
                    ("success", VBool false)])].
Proof. by vm_compute. Qed.

(** X16.  A sub-agent cannot take an envelope whose kind is a plain
    string: the second test of [receive] reads [.value] on it and raises
    [AttributeError], even for the string ["delegate_task"].  So when such
    an envelope (the child-failed envelope of a child, for one) heads the
    mailbox of a running sub-agent, the turn of the loop ends in
    [_handle_error]: the sub-agent reports a failure of its own. *)
Theorem sub_agent_string_kind_raises
    (generate : list (string * PyVal) → Result (string * string))
    (py_str : PyVal → string) (slice50 : PyVal → Result PyVal)
    (system_prompt uuid uuid' : string) (utcnow utcnow' : Z) (w : World)
    (self : loc) (a : Actor) (message : ActorMessage)
    (rest : list ActorMessage) (s : string) :
  heap w !! self = Some a →
  _running a = true →
  mailbox a = message :: rest →
  message_type message = KStr s →
  let e := mkExc AttributeError "'str' object has no attribute 'value'" in
  (∀ w0, SubAgent_receive generate py_str slice50 system_prompt uuid utcnow
           w0 self message = (w0, Some e))
  ∧ _run_iter
      (SubAgent_receive generate py_str slice50 system_prompt uuid utcnow)
      w self uuid' utcnow'
    = (_handle_error (update self (set_mailbox rest) w) self e uuid' utcnow',
       Looping).
Proof.
  intros Ha Hrun Hmb Hk. cbv zeta.
  assert (∀ w0, SubAgent_receive generate py_str slice50 system_prompt uuid
                  utcnow w0 self message
                = (w0, Some (mkExc AttributeError
                               "'str' object has no attribute 'value'")))
    as Hraise.
  { intros w0. unfold SubAgent_receive. by rewrite Hk. }
  split; [done|].
  by apply (run_iter_handler_raises _ w _ self a message rest).
Qed.

Lemma sub_agent_string_kind_raises_witness :
  let w := send A_and_caller child_failed in
  let a := set_mailbox [child_failed]
             (set_state RUNNING
                (set_running true
                   (set_system true (Actor_init (Some "A") "00000001")))) in
  let e := mkExc AttributeError "'str' object has no attribute 'value'" in
  (∀ w0, SubAgent_receive answer str_of slice_of "prompt" "0000000a" 1
           w0 0 child_failed = (w0, Some e))
  ∧ _run_iter (SubAgent_receive answer str_of slice_of "prompt" "0000000a" 1)
      w 0 "0000000f" 2
    = (_handle_error (update 0 (set_mailbox []) w) 0 e "0000000f" 2,
       Looping).
Proof.
  cbv zeta.
  apply (sub_agent_string_kind_raises answer str_of slice_of "prompt"
           "0000000a" "0000000f" 1 2 (send A_and_caller child_failed) 0
           (set_mailbox [child_failed]
              (set_state RUNNING
                 (set_running true
                    (set_system true (Actor_init (Some "A") "00000001")))))
           child_failed [] "child_error"); by vm_compute.
Defined.

(** X17.  What [ActorAgent.receive] understands.  The child-failed envelope
    of [_handle_error] is recognised: the agent logs [received_child_error]
    with the child's identity and the error text, and does nothing else.
    Every envelope whose kind is a member of [MessageType], the replies of
    the command, web-search and sub-agent handlers among them, is logged
    as [unknown_message_type] and otherwise ignored. *)
Theorem actor_agent_receive_kinds (w : World) (self : loc) :
  (∀ a e uuid utcnow,
     ActorAgent_receive w self (error_message a e uuid utcnow)
     = (logger error "received_child_error"
          [("actor_id", VStr (actor_id a)); ("error", VStr (exc_str e))] w,
        None))
  ∧ (∀ message k,
       message_type message = KEnum k →
       ActorAgent_receive w self message
       = (logger warning "unknown_message_type"
            [("message_type", VMessageType k)] w, None))
  ∧ (∀ a message result uuid utcnow,
       ∃ entry,
         ActorAgent_receive w self
           (reply_message a message result uuid utcnow)
         = (mkWorld (heap w) (actors w) (tasks w) (log w ++ [entry]), None)
         ∧ event entry = "unknown_message_type").
Proof.
  split_and!.
  - done.
  - intros message k Hk. unfold ActorAgent_receive. by rewrite Hk.
  - intros. by eexists.
Qed.

(** ** Failures with nobody to tell *)



(** ** Composition *)

(** X19.  A broadcast to a list in two parts is the broadcast to the first
    part followed by the broadcast to the second; in particular a
    broadcast to one identity is a [send] of the copy. *)
Theorem broadcast_app (w : World) (message : ActorMessage)
    (ids1 ids2 : list string) :
  broadcast w message (ids1 ++ ids2)
  = broadcast (broadcast w message ids1) message ids2
  ∧ ∀ i, broadcast w message [i] = send w (msg_copy message i).
Proof.
  split; [|done]. revert w.
  induction ids1 as [|i ids1 IH]; intros w; [done|]. simpl. apply IH.
Qed.

(** X20.  A [stop] that returns leaves the identity unregistered, so a
    second [stop] of the same identity, at any depth that allows the call,
    changes nothing. *)
Theorem stop_twice (listing : gset string → list string) (depth : nat)
    (w w' : World) (i : string) :
  stop listing depth w i = Ok w' →
  actors w' !! i = None
  ∧ ∀ depth', stop listing (S depth') w' i = Ok w'.
Proof.
  intros Hs.
  assert (actors w' !! i = None) as Hn; [|by split; [|intros; apply stop_unknown]].
  destruct depth as [|depth]; [done|]. simpl in Hs.
  destruct (actors w !! i) as [r|] eqn:Hi; [|by injection Hs as <-].
  destruct (Actor_stop listing (stop listing depth) w r) as [w1|]; [|done].
  simpl in Hs. unfold unregister in Hs.
  destruct (heap w1 !! r) as [a|]; [|done].
  assert (∀ w2, match actors w2 !! i with
                | Some _ =>
                    Ok (logger info "actor_stopped" [("actor_id", VStr i)]
                          (set_actors (delete i (actors w2)) w2))
                | None => Err (mkExc KeyError i)
                end = Ok w' → actors w' !! i = None) as Hdel.
  { intros w2. destruct (actors w2 !! i); [|done]. intros [= <-].
    simpl. apply lookup_delete_eq. }
  destruct (truthy_opt (parent_id a)); cbn [bind] in Hs; [|by eapply Hdel].
  destruct (actors w1 !! default "" (parent_id a)); cbn [bind] in Hs;
    by eapply Hdel.
Qed.

Lemma stop_twice_witness :
  actors (stopped family "C1") !! "C1" = None
  ∧ ∀ depth', stop elements (S depth') (stopped family "C1") "C1"
              = Ok (stopped family "C1").
Proof.
  apply (stop_twice elements 3 family). by vm_compute.
Defined.

(** X21.  An actor's identity is never the empty string: an identity that
    is passed and not empty is kept, and when none is passed, or the empty
    string is, the identity is ["actor_"] followed by the digits drawn. *)
Theorem Actor_init_identity (uuid : string) :
  (∀ o, truthy (actor_id (Actor_init o uuid)) = true)
  ∧ (∀ s, truthy s = true → actor_id (Actor_init (Some s) uuid) = s)
  ∧ actor_id (Actor_init None uuid) = "actor_" +:+ uuid
  ∧ actor_id (Actor_init (Some "") uuid) = "actor_" +:+ uuid.
Proof.
  split_and!; try done.
  - intros [s|]; [|done]. simpl. by destruct s.
  - intros s Hs. simpl. by rewrite Hs.
Qed.
(** ** More on the two concrete handlers *)

(** X22.  The command handler uses neither the [timeout] of the request
    nor the exit code of the run.  Two requests that differ in the
    [timeout] of their payload only have the same outcome; and whenever
    the safety agent accepts and the executor returns, the reply says
    [success=True], whatever the exit code and the [timeout] flag of what
    the executor returned. *)
Theorem command_reply_ignores_timeout_and_exit_code
    (is_safe : string → bool * string) (execute : string → Result ExecResult)
    (uuid : string) (utcnow : Z) (w : World) (self : loc)
    (message : ActorMessage) (command : string) (t : Z) :
  payload message = VExecuteCommand command t →
  (∀ message' t',
     id message' = id message →
     reply_to message' = reply_to message →
     correlation_id message' = correlation_id message →
     payload message' = VExecuteCommand command t' →
     _handle_execute_command is_safe execute uuid utcnow w self message'
     = _handle_execute_command is_safe execute uuid utcnow w self message)
  ∧ (∀ a reason result_data,
       heap w !! self = Some a → system a = true →
       truthy_opt (reply_to message) = true →
       is_safe command = (true, reason) →
       execute command = Ok result_data →
       ∃ data,
         _handle_execute_command is_safe execute uuid utcnow w self message
         = (send w
              (reply_message a message (VCommandResult true data None)
                 uuid utcnow), None)).
Proof.
  intros Hp. split.
  - intros message' t' Hid Hr Hc Hp'. unfold _handle_execute_command.
    rewrite Hp, Hp', Hr, Hid. unfold reply_message. by rewrite Hr, Hc.
  - intros a reason rd Ha Hsys Hr Hs He. unfold _handle_execute_command.
    rewrite Ha, Hp, Hs, He. simpl. rewrite Hr. unfold tell.
    rewrite Ha, Hsys. by eexists.
Qed.

(** [request_m1] with the executor returning exit code 1. *)
Lemma command_reply_ignores_timeout_and_exit_code_witness :
  let failed := λ _ : string, Ok (mkExec "" "not found" 1 false) in
  (∀ message' t',
     id message' = id request_m1 →
     reply_to message' = reply_to request_m1 →
     correlation_id message' = correlation_id request_m1 →
     payload message' = VExecuteCommand "echo hi" t' →
     _handle_execute_command always_safe failed "0000000a" 1 A_and_caller 0
       message'
     = _handle_execute_command always_safe failed "0000000a" 1 A_and_caller
         0 request_m1)
  ∧ (∀ a reason result_data,
       heap A_and_caller !! 0 = Some a → system a = true →
       truthy_opt (reply_to request_m1) = true →
       always_safe "echo hi" = (true, reason) →
       failed "echo hi" = Ok result_data →
       ∃ data,
         _handle_execute_command always_safe failed "0000000a" 1
           A_and_caller 0 request_m1
         = (send A_and_caller
              (reply_message a request_m1 (VCommandResult true data None)
                 "0000000a" 1), None)).
Proof.
  cbv zeta.
  apply (command_reply_ignores_timeout_and_exit_code always_safe _
           "0000000a" 1 A_and_caller 0 request_m1 "echo hi" 30).
  reflexivity.
Defined.

(** The web-search handler changes mailboxes and the log, nothing else,
    and raises only what the search raises that is no [Exception]. *)
Lemma WebSearchActor_receive_frame (search : string → Result PyVal)
    (uuid : string) (utcnow : Z) (w : World) (self : loc) (a : Actor)
    (message : ActorMessage) :
  heap w !! self = Some a →
  (∀ q e, search q = Err e → is_Exception e = true) →
  ∃ w', WebSearchActor_receive search uuid utcnow w self message
        = (w', None)
        ∧ actors w' = actors w
        ∧ ∀ r o, heap w !! r = Some o →
            ∃ mb, heap w' !! r = Some (set_mailbox mb o).
Proof.
  intros Ha Hexc.
  assert (∀ r o, heap w !! r = Some o →
            ∃ mb, heap w !! r = Some (set_mailbox mb o)) as Hsame.
  { intros r o Ho. exists (mailbox o). by destruct o. }
  unfold WebSearchActor_receive.
  destruct (py_eq _ _); [|rewrite Ha; by eexists].
  unfold _handle_web_search. rewrite Ha.
  destruct (payload message); try by eexists.
  assert (∀ result,
            ∃ w', (if truthy_opt (reply_to message)
                   then (tell w self
                           (reply_message a message result uuid utcnow),
                         None)
                   else (logger info "no_reply_address"
                           [("message_id", VStr (id message))] w, None))
                  = (w', @None PyExc)
                  ∧ actors w' = actors w
                  ∧ ∀ r o, heap w !! r = Some o →
                      ∃ mb, heap w' !! r = Some (set_mailbox mb o)) as Hend.
  { intros result. destruct (truthy_opt (reply_to message)).
    - eexists. split; [done|]. split; [apply tell_actors|].
      intros r o. apply tell_only_mailboxes.
    - by eexists. }
  destruct (search query) as [rs|e] eqn:He; [apply Hend|].
  rewrite (Hexc _ _ He). apply Hend.
Qed.

(** X23.  A failing search never fails the web-search actor.  If the
    search raises nothing but [Exception]s, a turn of the loop with
    [WebSearchActor.receive] never runs the error path: the loop goes on,
    the actor's state is what it was, the registry is unchanged and the
    objects of the store differ in their mailboxes at most.  When the
    search did raise and the request has a reply address, the requester
    is sent a failed [CommandResult] with the text of the exception. *)
Theorem web_search_actor_turn_never_fails (search : string → Result PyVal)
    (uuid uuid' : string) (utcnow utcnow' : Z) (w : World) (self : loc)
    (a : Actor) :
  heap w !! self = Some a →
  _running a = true →
  (∀ q e, search q = Err e → is_Exception e = true) →
  (∃ w', _run_iter (WebSearchActor_receive search uuid utcnow)
           w self uuid' utcnow' = (w', Looping)
         ∧ actors w' = actors w
         ∧ (∀ r o, heap w !! r = Some o →
              ∃ mb, heap w' !! r = Some (set_mailbox mb o))
         ∧ state <$> heap w' !! self = Some (state a))
  ∧ (∀ message rest q n e,
       mailbox a = message :: rest →
       message_type message = KEnum WEB_SEARCH →
       payload message = VWebSearchQuery q n →
       truthy_opt (reply_to message) = true →
       system a = true →
       search q = Err e →
       _run_iter (WebSearchActor_receive search uuid utcnow)
         w self uuid' utcnow'
       = (send (update self (set_mailbox rest) w)
            (reply_message a message
               (VCommandResult false VNone
                  (Some ("Web search failed: " +:+ exc_str e)))
               uuid utcnow), Looping)).
Proof.
  intros Ha Hrun Hexc. split.
  - unfold _run_iter, get. rewrite Ha, Hrun.
    assert (∀ w', (∀ r o, heap w !! r = Some o →
                     ∃ mb, heap w' !! r = Some (set_mailbox mb o)) →
              state <$> heap w' !! self = Some (state a)) as Hstate.
    { intros w' H. destruct (H self a Ha) as (mb & ->). done. }
    destruct (mailbox a) as [|message rest] eqn:Hmb.
    + exists w. split; [done|]. split; [done|].
      assert (∀ r o, heap w !! r = Some o →
                ∃ mb, heap w !! r = Some (set_mailbox mb o)) as Hsame.
      { intros r o Ho. exists (mailbox o). by destruct o. }
      split; [done|]. by apply Hstate.
    + destruct (WebSearchActor_receive_frame search uuid utcnow
                  (update self (set_mailbox rest) w) self
                  (set_mailbox rest a) message)
        as (w' & -> & Hreg & Hheap).
      { simpl. by rewrite lookup_alter_eq, Ha. }
      { done. }
      exists w'. split; [done|]. split; [done|].
      assert (∀ r o, heap w !! r = Some o →
                ∃ mb, heap w' !! r = Some (set_mailbox mb o)) as Hall.
      { intros r o Ho. destruct (decide (r = self)) as [->|Hne].
        - destruct (Hheap self (set_mailbox rest o)) as (mb & Hmb').
          { simpl. by rewrite lookup_alter_eq, Ho. }
          exists mb. by rewrite Hmb'.
        - apply Hheap. simpl. by rewrite lookup_alter_ne. }
      split; [done|]. by apply Hstate.
  - intros message rest q n e Hmb Hk Hp Hr Hsys He.
    unfold _run_iter, get. rewrite Ha, Hrun, Hmb.
    unfold WebSearchActor_receive. rewrite Hk.
    change (py_eq (KEnum WEB_SEARCH) (KEnum WEB_SEARCH)) with true.
    cbv iota. unfold _handle_web_search. simpl heap.
    rewrite lookup_alter_eq, Ha. simpl. rewrite Hp, He, (Hexc _ _ He), Hr.
    unfold tell. simpl heap. rewrite lookup_alter_eq, Ha. simpl.
    rewrite Hsys. unfold reply_message. simpl. done.
Qed.

(** ["A"] handles [search_m1] with a search that raises. *)
Lemma web_search_actor_turn_never_fails_witness :
  let failing := λ _ : string, Err (mkExc OtherException "boom") in
  let w := send A_and_caller search_m1 in
  let a := set_mailbox [search_m1]
             (set_state RUNNING
                (set_running true
                   (set_system true (Actor_init (Some "A") "00000001")))) in
  (∃ w', _run_iter (WebSearchActor_receive failing "0000000a" 1)
           w 0 "0000000e" 2 = (w', Looping)
         ∧ actors w' = actors w
         ∧ (∀ r o, heap w !! r = Some o →
              ∃ mb, heap w' !! r = Some (set_mailbox mb o))
         ∧ state <$> heap w' !! 0 = Some (state a))
  ∧ (∀ message rest q n e,
       mailbox a = message :: rest →
       message_type message = KEnum WEB_SEARCH →
       payload message = VWebSearchQuery q n →
       truthy_opt (reply_to message) = true →
       system a = true →
       failing q = Err e →
       _run_iter (WebSearchActor_receive failing "0000000a" 1)
         w 0 "0000000e" 2
       = (send (update 0 (set_mailbox rest) w)
            (reply_message a message
               (VCommandResult false VNone
                  (Some ("Web search failed: " +:+ exc_str e)))
               "0000000a" 1), Looping)).
Proof.
  cbv zeta.
  apply (web_search_actor_turn_never_fails _ "0000000a" "0000000e" 1 2
           (send A_and_caller search_m1) 0
           (set_mailbox [search_m1]
              (set_state RUNNING
                 (set_running true
                    (set_system true (Actor_init (Some "A") "00000001"))))));
    [by vm_compute|done|].
  intros q e [= <-]. done.
Defined.
